(** * config_common: a shallow embedding of the configuration-file library

    The development follows [scripts/mbedtls_framework/config_common.py]:
    the [Setting] record, the [Config] symbol table with its query and
    mutation methods, and [ConfigFile] with its line parser, its template
    renderer and its conditional write.

    Python objects that are shared and mutated ([ConfigFile] instances, which
    are reachable both from [Config.configfiles] and from every
    [Setting.configfile]) live in an explicit heap and are named by reference.
    Methods that mutate or raise are computations in a state-and-exception
    monad over the whole world (symbol table, heap, file system, I/O log):
    the state survives an exception, as it does in Python. *)

From Stdlib Require Import Ascii String.
From stdpp Require Import base option list gmap strings.

Local Open Scope string_scope.

(** ** Text

    Python [str] values are modelled by [string], one character per code
    point, over the code points U+0000 to U+00FF (Latin-1): [ascii] is the
    type of 8-bit characters, and [nat_of_ascii] gives the code point. *)

(** [str.isspace] on one character, which is also what [\s] matches and
    what [str.rstrip()] strips: TAB, LF, VT, FF, CR, FS, GS, RS, US, SPACE,
    NEL (U+0085) and NBSP (U+00A0). *)
Definition is_space (c : ascii) : bool :=
  let n := nat_of_ascii c in
  (((9 <=? n) && (n <=? 13)) || ((28 <=? n) && (n <=? 32))
   || (n =? 133) || (n =? 160))%nat.

(** [\w] on one character: the underscore and what [str.isalnum] accepts,
    which is the ASCII letters and digits and, above U+007F, the letters
    (U+00AA, U+00B5, U+00BA, U+00C0 to U+00FF but for the signs U+00D7 and
    U+00F7), the superscript digits (U+00B2, U+00B3, U+00B9) and the
    fractions (U+00BC to U+00BE). *)
Definition is_word (c : ascii) : bool :=
  let n := nat_of_ascii c in
  (((48 <=? n) && (n <=? 57)) || ((65 <=? n) && (n <=? 90))
   || ((97 <=? n) && (n <=? 122)) || (n =? 95)
   || (n =? 170) || ((178 <=? n) && (n <=? 179)) || (n =? 181)
   || ((185 <=? n) && (n <=? 186)) || ((188 <=? n) && (n <=? 190))
   || ((192 <=? n) && (n <=? 214)) || ((216 <=? n) && (n <=? 246))
   || ((248 <=? n) && (n <=? 255)))%nat.

(** [.] without DOTALL: anything but a line feed. *)
Definition is_dot (c : ascii) : bool := negb (nat_of_ascii c =? 10)%nat.

Definition ascii_eqb (a b : ascii) : bool := (nat_of_ascii a =? nat_of_ascii b)%nat.

(** [c in chars]. *)
Fixpoint char_in (c : ascii) (chars : string) : bool :=
  match chars with
  | EmptyString => false
  | String d rest => ascii_eqb c d || char_in c rest
  end.

(** [s.rstrip(chars)] for the set of characters recognised by [p]. *)
Fixpoint rstrip_by (p : ascii -> bool) (s : string) : string :=
  match s with
  | EmptyString => EmptyString
  | String c rest =>
      match rstrip_by p rest with
      | EmptyString => if p c then EmptyString else String c EmptyString
      | r => String c r
      end
  end.

(** [s.rstrip()]. *)
Definition rstrip (s : string) : string := rstrip_by is_space s.

(** [s.rstrip('\r\n')]. *)
Definition rstrip_crlf (s : string) : string :=
  rstrip_by (fun c => char_in c (String "013" (String "010" EmptyString))) s.

(** [s[-1]], [None] standing for the [IndexError] of an empty string. *)
Fixpoint last_char (s : string) : option ascii :=
  match s with
  | EmptyString => None
  | String c EmptyString => Some c
  | String _ rest => last_char rest
  end.

(** Truthiness of a [str]. *)
Definition str_truthy (s : string) : bool :=
  match s with EmptyString => false | _ => true end.

(** ** Exceptions and results *)

Inductive exn : Set :=
| KeyError
| IndexError
| TypeError
| AttributeError
| FileNotFoundError
| ReferenceError
| ReError.

Inductive result (A : Type) : Type :=
| Ok (a : A)
| Raise (e : exn).
Arguments Ok {A} a.
Arguments Raise {A} e.

(** ** Objects *)

(** Address of a [ConfigFile] object in the heap. *)
Definition ref := nat.

(** A macro value as handled by the library: [None] is Python's [None],
    [Some s] a [str]. *)
Definition pyvalue := option string.

(** [class Setting]. *)
Record Setting : Type := mkSetting {
  active : bool;
  name : string;
  value : pyvalue;
  section : option string;
  configfile : ref
}.

(** [Setting.__init__(self, configfile, active, name, value='', section=None)]. *)
Definition Setting_init (cf : ref) (act : bool) (nm : string)
    (v : pyvalue) (sec : option string) : Setting :=
  {| active := act; name := nm; value := v; section := sec; configfile := cf |}.

(** The few kinds of Python object the library compares or dereferences:
    [None], a [str], or the [Setting] stored under a key of the table. *)
Inductive pyobj : Type :=
| PyNone
| PyStr (s : string)
| PySetting (key : string).

Definition obj_of_value (v : pyvalue) : pyobj :=
  match v with None => PyNone | Some s => PyStr s end.

(** [a != b]. [str] and [None] compare by content; [Setting] defines no
    [__eq__], so a setting compares by identity and differs from every
    object but itself. *)
Definition py_ne (a b : pyobj) : bool :=
  match a, b with
  | PyNone, PyNone => false
  | PyStr s, PyStr t => negb (String.eqb s t)
  | PySetting k, PySetting l => negb (String.eqb k l)
  | _, _ => true
  end.

(** A line template: a verbatim [str] or a [(name, indent, middle)] tuple. *)
Inductive template : Type :=
| TStr (line : string)
| TTuple (nm indent middle : string).

(** [class ConfigFile]: the instance attributes set by [__init__]. *)
Record ConfigFile : Type := mkConfigFile {
  filename : string;
  templates : list template;
  current_section : option string;
  inclusion_guard : option string;
  modified : bool
}.

Definition set_modified (b : bool) (cf : ConfigFile) : ConfigFile :=
  {| filename := filename cf; templates := templates cf;
     current_section := current_section cf;
     inclusion_guard := inclusion_guard cf; modified := b |}.

(** ** The world *)

Inductive io_event : Type :=
| OpenRead (path : string)
| OpenWrite (path : string)
| WriteText (path : string) (text : string).

(** One [Config] instance ([settings], [configfiles]), the heap of
    [ConfigFile] objects, the file system and the trace of file operations
    so far. The file system is [files], path to content, together with
    [unwritable]: the paths that [open(path, 'w')] refuses, each with the
    exception it raises there ([FileNotFoundError] for a missing directory,
    or another [OSError]). In the trace, [OpenWrite] records the call of
    [open(path, 'w')], granted or refused. *)
Record world : Type := mkWorld {
  settings : gmap string Setting;
  configfiles : list ref;
  heap : gmap ref ConfigFile;
  files : gmap string string;
  io_log : list io_event;
  unwritable : gmap string exn
}.

Definition with_settings (st : gmap string Setting) (w : world) : world :=
  {| settings := st; configfiles := configfiles w; heap := heap w;
     files := files w; io_log := io_log w; unwritable := unwritable w |}.

Definition with_heap (h : gmap ref ConfigFile) (w : world) : world :=
  {| settings := settings w; configfiles := configfiles w; heap := h;
     files := files w; io_log := io_log w; unwritable := unwritable w |}.

Definition with_configfiles (l : list ref) (w : world) : world :=
  {| settings := settings w; configfiles := l; heap := heap w;
     files := files w; io_log := io_log w; unwritable := unwritable w |}.

Definition with_io (fs : gmap string string) (log : list io_event)
    (w : world) : world :=
  {| settings := settings w; configfiles := configfiles w; heap := heap w;
     files := fs; io_log := log; unwritable := unwritable w |}.

(** ** The monad of methods *)

Definition M (A : Type) : Type := world -> result A * world.

Definition ret {A} (a : A) : M A := fun w => (Ok a, w).
Definition raise {A} (e : exn) : M A := fun w => (Raise e, w).
Definition bind {A B} (m : M A) (k : A -> M B) : M B :=
  fun w => match m w with
           | (Ok a, w') => k a w'
           | (Raise e, w') => (Raise e, w')
           end.
Definition lift {A} (r : result A) : M A := fun w => (r, w).
Definition gets {A} (f : world -> A) : M A := fun w => (Ok (f w), w).
Definition modify (f : world -> world) : M unit := fun w => (Ok tt, f w).

Declare Scope py_scope.
Delimit Scope py_scope with py.
Notation "x <- m ;; k" := (bind m (fun x => k))
  (at level 100, m at next level, right associativity) : py_scope.
Notation "m ;;; k" := (bind m (fun _ => k))
  (at level 100, right associativity) : py_scope.
Local Open Scope py_scope.

(** [self.settings[name]]. *)
Definition settings_getitem (nm : string) (w : world) : result Setting :=
  match settings w !! nm with
  | Some s => Ok s
  | None => Raise KeyError
  end.

(** [setting.configfile.modified = True] for the object at [r]. *)
Definition mark_modified (r : ref) : M unit :=
  modify (fun w => with_heap (alter (set_modified true) r (heap w)) w).

(** In-place update of the [Setting] object stored under [nm]. *)
Definition update_setting (nm : string) (f : Setting -> Setting) : M unit :=
  modify (fun w => with_settings (alter f nm (settings w)) w).

Definition set_value (v : pyvalue) (s : Setting) : Setting :=
  {| active := active s; name := name s; value := v;
     section := section s; configfile := configfile s |}.

Definition set_active (b : bool) (s : Setting) : Setting :=
  {| active := b; name := name s; value := value s;
     section := section s; configfile := configfile s |}.

(** ** [class Config] *)

(** [Config.__contains__]. *)
Definition Config_contains (nm : string) (w : world) : bool :=
  match settings w !! nm with
  | Some s => active s
  | None => false
  end.

(** [Config.all] and [Config.any]. *)
Definition Config_all (names : list string) (w : world) : bool :=
  forallb (fun nm => Config_contains nm w) names.
Definition Config_any (names : list string) (w : world) : bool :=
  existsb (fun nm => Config_contains nm w) names.

(** [Config.known]. *)
Definition Config_known (nm : string) (w : world) : bool :=
  bool_decide (is_Some (settings w !! nm)).

(** [Config.__getitem__]: [return self.settings[name].value]. *)
Definition Config_getitem (nm : string) (w : world) : result pyvalue :=
  match settings_getitem nm w with
  | Ok s => Ok (value s)
  | Raise e => Raise e
  end.

(** [Config.get]: the test is [name in self.settings]. *)
Definition Config_get (nm : string) (default : pyvalue) (w : world) : pyvalue :=
  if bool_decide (is_Some (settings w !! nm)) then
    match settings w !! nm with
    | Some s => value s
    | None => default
    end
  else default.

(** [self.settings[name]] inside a method. *)
Definition getitem (nm : string) : M Setting :=
  fun w => (settings_getitem nm w, w).

(** [obj.configfile]: only a [Setting] has this attribute. *)
Definition getattr_configfile (o : pyobj) (w : world) : result ref :=
  match o with
  | PySetting k =>
      match settings w !! k with
      | Some s => Ok (configfile s)
      | None => Raise ReferenceError
      end
  | PyNone | PyStr _ => Raise AttributeError
  end.

(** Truthiness of an optional [str] argument ([None] and [''] are falsy). *)
Definition opt_truthy (o : option string) : bool :=
  match o with Some s => str_truthy s | None => false end.

(** [Config._get_configfile(self, name=None)]:
    [if name and name in self.settings: return self.get(name).configfile]
    and otherwise [return self.configfiles[0]]. [self.get] is [Config.get],
    whose result is the macro value. *)
Definition Config__get_configfile (nm : option string) : M ref :=
  fun w =>
    match nm with
    | Some n =>
        if str_truthy n && bool_decide (is_Some (settings w !! n)) then
          (getattr_configfile (obj_of_value (Config_get n None w)) w, w)
        else
          match configfiles w with
          | r :: _ => (Ok r, w)
          | [] => (Raise IndexError, w)
          end
    | None =>
        match configfiles w with
        | r :: _ => (Ok r, w)
        | [] => (Raise IndexError, w)
        end
    end.

(** [Config.__setitem__]: the comparison is [setting != value], between the
    [Setting] object and the new value. *)
Definition Config_setitem (nm : string) (v : pyvalue) : M unit :=
  setting <- getitem nm ;;
  (if py_ne (PySetting nm) (obj_of_value v)
   then mark_modified (configfile setting) else ret tt) ;;;
  update_setting nm (set_value v).

(** [Config.set(self, name, value=None)]. *)
Definition Config_set (nm : string) (v : pyvalue) : M unit :=
  known <- gets (fun w => bool_decide (is_Some (settings w !! nm))) ;;
  if (known : bool) then
    setting <- getitem nm ;;
    (if py_ne (obj_of_value (value setting)) (obj_of_value v)
        || negb (active setting)
     then mark_modified (configfile setting) else ret tt) ;;;
    (match v with
     | Some _ => update_setting nm (set_value v)
     | None => ret tt
     end) ;;;
    update_setting nm (set_active true)
  else
    cf <- Config__get_configfile (Some nm) ;;
    modify (fun w =>
      with_settings (<[nm := Setting_init cf true nm v None]> (settings w)) w) ;;;
    mark_modified cf.

(** [Config.unset]. *)
Definition Config_unset (nm : string) : M unit :=
  known <- gets (fun w => bool_decide (is_Some (settings w !! nm))) ;;
  if negb known then ret tt
  else
    setting <- getitem nm ;;
    (if active setting then mark_modified (configfile setting) else ret tt) ;;;
    update_setting nm (set_active false).

(** [for x in l: body(x)]. *)
Fixpoint for_each {A} (l : list A) (body : A -> M unit) : M unit :=
  match l with
  | [] => ret tt
  | x :: rest => body x ;;; for_each rest body
  end.

(** The keys of [self.settings], over which the loops of [adapt] and
    [change_matching] run. Python traverses a dict in insertion order, which
    a [gmap] does not record; each iteration reads and writes only the
    visited setting and can only raise the [modified] flag of its file. *)
Definition settings_keys (w : world) : list string :=
  (map_to_list (settings w)).*1.

(** One iteration of the loop of [Config.adapt] on the setting under [k]. *)
Definition adapt_step (adapter : string -> bool -> option string -> bool)
    (k : string) : M unit :=
  setting <- getitem k ;;
  let is_active := active setting in
  let now := adapter (name setting) (active setting) (section setting) in
  update_setting k (set_active now) ;;;
  if negb (Bool.eqb now is_active)
  then mark_modified (configfile setting) else ret tt.

(** [Config.adapt]. *)
Definition Config_adapt (adapter : string -> bool -> option string -> bool)
    : M unit :=
  keys <- gets settings_keys ;;
  for_each keys (adapt_step adapter).

(** ['|'.join(regexs)]. *)
Fixpoint join_bar (regexs : list string) : string :=
  match regexs with
  | [] => ""
  | [r] => r
  | r :: rest => r ++ "|" ++ join_bar rest
  end.

Section Regexs.

(** The regular-expression engine is a library, and the patterns are the
    caller's: [re_valid pattern] tells whether [re.compile(pattern)]
    accepts the pattern (it raises [re.error] otherwise), and
    [re_search pattern s] is [re.compile(pattern).search(s)] as a truth
    value. *)
Variable re_search : string -> string -> bool.
Variable re_valid : string -> bool.

(** One iteration of the loop of [Config.change_matching]. *)
Definition change_matching_step (regex : string) (enable : bool)
    (k : string) : M unit :=
  setting <- getitem k ;;
  if re_search regex (name setting) then
    (if negb (Bool.eqb (active setting) enable)
     then mark_modified (configfile setting) else ret tt) ;;;
    update_setting k (set_active enable)
  else ret tt.

(** [Config.change_matching]. *)
Definition Config_change_matching (regexs : list string) (enable : bool)
    : M unit :=
  match regexs with
  | [] => ret tt
  | _ =>
      let regex := join_bar regexs in
      if re_valid regex then
        keys <- gets settings_keys ;;
        for_each keys (change_matching_step regex enable)
      else raise ReError
  end.

End Regexs.

(** ** Regular expressions

    The three line patterns only use literals, one-character classes,
    greedy repetition of a one-character class, optional parts, sequences,
    alternatives and named groups. [rmatch] is a backtracking matcher in
    continuation-passing style with the semantics of Python's [re]: the
    leftmost alternative wins, repetitions are greedy and give characters
    back when the rest of the pattern fails. *)

Inductive regex : Type :=
| Lit (t : string)
| Cls (p : ascii -> bool)
| Star (p : ascii -> bool)
| Plus (p : ascii -> bool)
| Opt (r : regex)
| Seq (r1 r2 : regex)
| Alt (r1 r2 : regex)
| Group (g : string) (r : regex).

(** The match object: group name to matched text; a group that took no
    part in the match is absent ([m.group(g)] is [None]). *)
Abbreviation captures := (gmap string string).

Fixpoint strip_prefix (t s : string) : option string :=
  match t, s with
  | EmptyString, _ => Some s
  | String a t', String b s' => if ascii_eqb a b then strip_prefix t' s' else None
  | String _ _, EmptyString => None
  end.

Fixpoint str_take (n : nat) (s : string) : string :=
  match n, s with
  | S n', String c s' => String c (str_take n' s')
  | _, _ => EmptyString
  end.

(** The text between the start [s] of a match and what is left, [s']. *)
Definition consumed (s s' : string) : string :=
  str_take (String.length s - String.length s') s.

(** Greedy [p*] followed by the continuation [k]. *)
Fixpoint star {A} (p : ascii -> bool) (s : string) (k : string -> option A)
    : option A :=
  match s with
  | String c s' =>
      if p c then
        match star p s' k with
        | Some x => Some x
        | None => k s
        end
      else k s
  | EmptyString => k s
  end.

Fixpoint rmatch (r : regex) (s : string) (caps : captures)
    (k : string -> captures -> option captures) : option captures :=
  match r with
  | Lit t =>
      match strip_prefix t s with
      | Some s' => k s' caps
      | None => None
      end
  | Cls p =>
      match s with
      | String c s' => if p c then k s' caps else None
      | EmptyString => None
      end
  | Star p => star p s (fun s' => k s' caps)
  | Plus p =>
      match s with
      | String c s' => if p c then star p s' (fun s'' => k s'' caps) else None
      | EmptyString => None
      end
  | Opt r1 =>
      match rmatch r1 s caps k with
      | Some x => Some x
      | None => k s caps
      end
  | Seq r1 r2 => rmatch r1 s caps (fun s' caps' => rmatch r2 s' caps' k)
  | Alt r1 r2 =>
      match rmatch r1 s caps k with
      | Some x => Some x
      | None => rmatch r2 s caps k
      end
  | Group g r1 =>
      rmatch r1 s caps (fun s' caps' => k s' (<[g := consumed s s']> caps'))
  end.

(** [re.match(pattern, s)]: anchored at the start, free at the end. *)
Definition re_match (pattern : regex) (s : string) : option captures :=
  rmatch pattern s ∅ (fun _ caps => Some caps).

(** The captures that a successful match of [r] can have added to [c]:
    one binding per group on the path the match took. *)
Fixpoint caps_of (r : regex) (c c' : captures) : Prop :=
  match r with
  | Lit _ | Cls _ | Star _ | Plus _ => c' = c
  | Opt r1 => caps_of r1 c c' \/ c' = c
  | Seq r1 r2 => exists c1, caps_of r1 c c1 /\ caps_of r2 c1 c'
  | Alt r1 r2 => caps_of r1 c c' \/ caps_of r2 c c'
  | Group g r1 => exists c1 t, caps_of r1 c c1 /\ c' = <[g := t]> c1
  end.

(** What is left of [s] after its longest prefix of characters in [p]. *)
Fixpoint skip (p : ascii -> bool) (s : string) : string :=
  match s with
  | String c s' => if p c then skip p s' else s
  | EmptyString => s
  end.

Fixpoint seq_of (rs : list regex) : regex :=
  match rs with
  | [] => Lit ""
  | [r] => r
  | r :: rest => Seq r (seq_of rest)
  end.

(** ** [class ConfigFile] *)

(** [ConfigFile._define_line_regexp]. The class [(?:\w|\s|,)] is the union
    of its three one-character alternatives. *)
Definition _define_line_regexp : regex :=
  seq_of [
    Group "indentation" (Star is_space);
    Group "commented_out" (Opt (Seq (Lit "//") (Star is_space)));
    Group "define" (seq_of [Lit "#"; Star is_space; Lit "define"; Plus is_space]);
    Group "name" (Plus is_word);
    Group "arguments"
      (Opt (seq_of [Lit "(";
                    Star (fun c => is_word c || is_space c || char_in c ",");
                    Lit ")"]));
    Group "separator" (Star is_space);
    Group "value" (Star is_dot)
  ].

(** [ConfigFile._ifndef_line_regexp]. *)
Definition _ifndef_line_regexp : regex :=
  Seq (Lit "#ifndef ") (Group "inclusion_guard" (Plus is_word)).

(** [ConfigFile._section_line_regexp]. *)
Definition _section_line_regexp : regex :=
  seq_of [
    Star is_space; Opt (Lit "/"); Plus (fun c => char_in c "*");
    Star is_space; Cls (fun c => char_in c "\@"); Lit "name";
    Plus is_space; Lit "SECTION:"; Star is_space;
    Group "section" (Star is_dot);
    Star (fun c => char_in c " */")
  ].

(** [ConfigFile._config_line_regexp]: the three patterns joined by [|]. *)
Definition _config_line_regexp : regex :=
  Alt _define_line_regexp (Alt _ifndef_line_regexp _section_line_regexp).

(** [a + b] on operands that may be [None]. *)
Definition str_add (a b : option string) : result string :=
  match a, b with
  | Some x, Some y => Ok (x ++ y)
  | _, _ => Raise TypeError
  end.

(** [a + b] where [a] is itself the outcome of a sum. *)
Definition str_add_r (a : result string) (b : option string) : result string :=
  match a with
  | Ok x => str_add (Some x) b
  | Raise e => Raise e
  end.

(** What [parse_file] yields: [(active, name, value, current_section)]. *)
Definition event : Type := bool * string * string * option string.

Definition append_template (t : template) (self : ConfigFile) : ConfigFile :=
  {| filename := filename self; templates := templates self ++ [t];
     current_section := current_section self;
     inclusion_guard := inclusion_guard self; modified := modified self |}.

Definition set_current_section (sec : option string) (self : ConfigFile)
    : ConfigFile :=
  {| filename := filename self; templates := templates self;
     current_section := sec;
     inclusion_guard := inclusion_guard self; modified := modified self |}.

Definition set_inclusion_guard (g : option string) (self : ConfigFile)
    : ConfigFile :=
  {| filename := filename self; templates := templates self;
     current_section := current_section self;
     inclusion_guard := g; modified := modified self |}.

(** [ConfigFile._parse_line]: the result and the object afterwards. In the
    last branch the groups are read as the source reads them, whichever
    alternative matched; the sum that builds the template text raises
    [TypeError] as soon as one operand is [None]. When the sum succeeds the
    define pattern has matched, and [name], [indentation] and [value] are
    set with it ([define_groups_present] below): the last case of the inner
    match is there for typing only. *)
Definition ConfigFile__parse_line (line0 : string) (self : ConfigFile)
    : result (option event) * ConfigFile :=
  let line := rstrip_crlf line0 in
  match re_match _config_line_regexp line with
  | None => (Ok None, append_template (TStr line) self)
  | Some m =>
      if opt_truthy (m !! "section") then
        (Ok None,
         append_template (TStr line) (set_current_section (m !! "section") self))
      else if opt_truthy (m !! "inclusion_guard")
              && bool_decide (inclusion_guard self = None) then
        (Ok None,
         append_template (TStr line)
           (set_inclusion_guard (m !! "inclusion_guard") self))
      else
        let act := negb (opt_truthy (m !! "commented_out")) in
        let nm := m !! "name" in
        let v := m !! "value" in
        if bool_decide (nm = inclusion_guard self) && bool_decide (v = Some "")
        then (Ok None, append_template (TStr line) self)
        else
          match str_add_r (str_add_r (str_add (m !! "define") nm)
                                     (m !! "arguments"))
                          (m !! "separator") with
          | Raise e => (Raise e, self)
          | Ok middle =>
              match nm, m !! "indentation", v with
              | Some n, Some indent, Some val =>
                  (Ok (Some (act, n, val, current_section self)),
                   append_template (TTuple n indent middle) self)
              | _, _, _ => (Raise TypeError, self)
              end
          end
  end.

(** [ConfigFile._format_template]. *)
Definition ConfigFile__format_template (setting : Setting)
    (indent middle : string) : result string :=
  let val := match value setting with Some v => v | None => "" end in
  let fixed :=
    if str_truthy val then
      match last_char middle with
      | None => Raise IndexError
      | Some c =>
          if negb (char_in c (String "009" " ")) then Ok (middle ++ " ")
          else Ok middle
      end
    else Ok (rstrip middle) in
  match fixed with
  | Raise e => Raise e
  | Ok mid =>
      Ok (rstrip (indent ++ (if active setting then "" else "//") ++ mid ++ val))
  end.

(** *** Files and streams

    [files] maps a path to the text Python reads from it in text mode.
    Opening a path for writing truncates it, unless the path is one of the
    [unwritable] ones. *)

(** The physical lines of a text, each with its line feed. *)
Fixpoint readlines (s : string) : list string :=
  match s with
  | EmptyString => []
  | String c rest =>
      if ascii_eqb c "010" then String c EmptyString :: readlines rest
      else match readlines rest with
           | [] => [String c EmptyString]
           | l :: ls => String c l :: ls
           end
  end.

(** [open(path, 'r')]. *)
Definition open_read (path : string) : M string :=
  fun w =>
    match files w !! path with
    | Some text => (Ok text, with_io (files w) (io_log w ++ [OpenRead path]) w)
    | None => (Raise FileNotFoundError, w)
    end.

(** [open(path, 'w')]. *)
Definition open_write (path : string) : M unit :=
  fun w =>
    match unwritable w !! path with
    | Some e =>
        (Raise e, with_io (files w) (io_log w ++ [OpenWrite path]) w)
    | None =>
        (Ok tt,
         with_io (<[path := ""]> (files w)) (io_log w ++ [OpenWrite path]) w)
    end.

(** [output.write(text)] on the stream opened on [path]. *)
Definition stream_write (path text : string) : M unit :=
  modify (fun w =>
    with_io (<[path := default "" (files w !! path) ++ text]> (files w))
            (io_log w ++ [WriteText path text]) w).

(** Following a reference to a [ConfigFile]. A reference out of the heap
    has no counterpart in Python; a call through it raises. *)
Definition deref (r : ref) : M ConfigFile :=
  fun w =>
    match heap w !! r with
    | Some cf => (Ok cf, w)
    | None => (Raise ReferenceError, w)
    end.

Definition store (r : ref) (cf : ConfigFile) : M unit :=
  modify (fun w => with_heap (<[r := cf]> (heap w)) w).

(** [settings[name]] on the mapping passed to [write]. *)
Definition dict_getitem (st : gmap string Setting) (nm : string)
    : result Setting :=
  match st !! nm with
  | Some s => Ok s
  | None => Raise KeyError
  end.

(** The line for one template, as computed in [write_to_stream]. *)
Definition template_line (st : gmap string Setting) (t : template)
    : result string :=
  match t with
  | TStr line => Ok line
  | TTuple nm indent middle =>
      match dict_getitem st nm with
      | Ok setting => ConfigFile__format_template setting indent middle
      | Raise e => Raise e
      end
  end.

(** [ConfigFile.write_to_stream]. *)
Definition ConfigFile_write_to_stream (self : ConfigFile)
    (st : gmap string Setting) (output : string) : M unit :=
  for_each (templates self) (fun t =>
    line <- lift (template_line st t) ;;
    stream_write output (line ++ String "010" "")).

(** [ConfigFile.write(self, settings, filename=None)]. *)
Definition ConfigFile_write (r : ref) (st : gmap string Setting)
    (fname : option string) : M unit :=
  self <- deref r ;;
  let target := match fname with None => filename self | Some f => f end in
  if negb (modified self) && String.eqb target (filename self) then ret tt
  else
    open_write target ;;;
    ConfigFile_write_to_stream self st target.

(** The loop of [ConfigFile.parse_file] over the lines of the file. *)
Fixpoint parse_lines (r : ref) (lines : list string) : M (list event) :=
  match lines with
  | [] => ret []
  | line :: rest =>
      self <- deref r ;;
      let '(res, self') := ConfigFile__parse_line line self in
      store r self' ;;;
      setting <- lift res ;;
      events <- parse_lines r rest ;;
      ret (match setting with Some ev => ev :: events | None => events end)
  end.

(** [ConfigFile.parse_file], run to the end of the file. *)
Definition ConfigFile_parse_file (r : ref) : M (list event) :=
  self <- deref r ;;
  text <- open_read (filename self) ;;
  events <- parse_lines r (readlines text) ;;
  self' <- deref r ;;
  store r (set_current_section None self') ;;;
  ret events.

(** The first candidate that exists, [os.path.lexists]. *)
Fixpoint first_existing (fs : gmap string string) (candidates : list string)
    : option string :=
  match candidates with
  | [] => None
  | c :: rest => if bool_decide (is_Some (fs !! c)) then Some c
                 else first_existing fs rest
  end.

(** [ConfigFile.__init__(self, default_path, name, filename=None)]: the new
    object is allocated at an unused address. *)
Definition ConfigFile_init (default_path : list string) (role : string)
    (fname : option string) : M ref :=
  fun w =>
    let found :=
      match fname with
      | Some f => Some f
      | None => first_existing (files w) default_path
      end in
    match found with
    | None => (Raise FileNotFoundError, w)
    | Some f =>
        let r := fresh (dom (heap w)) in
        (Ok r,
         with_heap (<[r := {| filename := f; templates := [];
                              current_section := None;
                              inclusion_guard := None;
                              modified := false |}]> (heap w)) w)
    end.

(** [Config.write(self, filename=None)]. *)
Definition Config_write (fname : option string) : M unit :=
  rs <- gets configfiles ;;
  for_each rs (fun r =>
    st <- gets settings ;;
    ConfigFile_write r st fname).

(** [Config.filename(self, name=None)]. *)
Definition Config_filename (nm : option string) : M string :=
  r <- Config__get_configfile nm ;;
  self <- deref r ;;
  ret (filename self).

(** ** Loading a file into the table *)

(** Modelled from the spec: the consumer of [parse_file] is a subclass of
    [Config] outside this source file. "FileModel.parse ... yielding
    structural tuples; SymbolTable consumes those tuples to
    populate/overwrite its mapping", and on a name collision the
    later-parsed tuple wins. Each tuple [(active, name, value, section)]
    becomes [Setting(configfile, active, name, value, section)] under
    [name]. *)
Definition Config_load (r : ref) : M unit :=
  events <- ConfigFile_parse_file r ;;
  for_each events (fun ev =>
    let '(act, nm, v, sec) := ev in
    modify (fun w =>
      with_settings (<[nm := Setting_init r act nm (Some v) sec]> (settings w)) w)).

(** Modelled from the spec: "SymbolTable owns a collection of FileModels";
    a file is created, appended to [configfiles] and loaded. *)
Definition Config_open (default_path : list string) (role : string)
    (fname : option string) : M ref :=
  r <- ConfigFile_init default_path role fname ;;
  modify (fun w => with_configfiles (configfiles w ++ [r]) w) ;;;
  Config_load r ;;;
  ret r.

(** The empty table of [Config.__init__] over a file system. *)
Definition Config_init (fs : gmap string string) : world :=
  {| settings := ∅; configfiles := []; heap := ∅; files := fs; io_log := [];
     unwritable := ∅ |}.

(** ** Sequences of calls *)

Inductive op : Type :=
| Op_setitem (nm : string) (v : pyvalue)
| Op_set (nm : string) (v : pyvalue)
| Op_unset (nm : string)
| Op_adapt (adapter : string -> bool -> option string -> bool)
| Op_change_matching (regexs : list string) (enable : bool)
| Op_write (fname : option string)
| Op_filename (nm : option string)
| Op_file_write (r : ref) (fname : option string)
| Op_parse_file (r : ref)
| Op_file_init (default_path : list string) (role : string)
               (fname : option string)
| Op_load (r : ref)
| Op_open (default_path : list string) (role : string)
          (fname : option string).

Section Runs.

Variable re_search : string -> string -> bool.
Variable re_valid : string -> bool.

(** The world after one call, whether it returned or raised. *)
Definition run_op (o : op) (w : world) : world :=
  match o with
  | Op_setitem nm v => (Config_setitem nm v w).2
  | Op_set nm v => (Config_set nm v w).2
  | Op_unset nm => (Config_unset nm w).2
  | Op_adapt adapter => (Config_adapt adapter w).2
  | Op_change_matching regexs enable =>
      (Config_change_matching re_search re_valid regexs enable w).2
  | Op_write fname => (Config_write fname w).2
  | Op_filename nm => (Config_filename nm w).2
  | Op_file_write r fname => (ConfigFile_write r (settings w) fname w).2
  | Op_parse_file r => (ConfigFile_parse_file r w).2
  | Op_file_init default_path role fname =>
      (ConfigFile_init default_path role fname w).2
  | Op_load r => (Config_load r w).2
  | Op_open default_path role fname =>
      (Config_open default_path role fname w).2
  end.

Definition run_ops (os : list op) (w : world) : world :=
  foldl (fun w' o => run_op o w') w os.

End Runs.

(** ** Sample tables and files *)

Definition LF : string := String "010" "".

Definition fresh_file (path : string) (dirty : bool) : ConfigFile :=
  {| filename := path; templates := []; current_section := None;
     inclusion_guard := None; modified := dirty |}.

(** A table over one unmodified file [config.h]: [FOO] is active with value
    [1], [BAZ] is known but commented out with value [7]. *)
Definition sample_world : world :=
  {| settings :=
       {[ "FOO" := Setting_init 0 true "FOO" (Some "1") None;
          "BAZ" := Setting_init 0 false "BAZ" (Some "7") None ]};
     configfiles := [0];
     heap := {[ 0 := {| filename := "config.h";
                        templates := [TStr "/* options */";
                                      TTuple "FOO" "" "#define FOO ";
                                      TTuple "BAZ" "" "#define BAZ "];
                        current_section := None;
                        inclusion_guard := None;
                        modified := false |} ]};
     files := {[ "config.h" :=
                 "/* options */" ++ LF ++ "#define FOO 1" ++ LF
                 ++ "//#define BAZ 7" ++ LF ]};
     io_log := [];
     unwritable := ∅ |}.

(** A header whose first two lines both have the shape of an inclusion
    guard. *)
Definition two_guards : gmap string string :=
  {[ "twice.h" := "#ifndef A_H" ++ LF ++ "#ifndef B_H" ++ LF ]}.

(** A header with a commented-out plain macro and an active one without
    value. *)
Definition toggles : gmap string string :=
  {[ "toggles.h" := "// #define FOO" ++ LF ++ "#define BAR" ++ LF ]}.

(** [toggles.h] behind a new [ConfigFile], parsed. *)
Definition toggles_parsed : result (list event) * world :=
  (r <- ConfigFile_init ["toggles.h"] "config" None ;;
   ConfigFile_parse_file r) (Config_init toggles).

(** The table over the parsed [toggles.h]: one [Setting] per yielded tuple,
    [FOO] inactive and [BAR] active, both with an empty value. *)
Definition toggles_world : world :=
  with_configfiles [0]
    (with_settings
       {[ "FOO" := Setting_init 0 false "FOO" (Some "") None;
          "BAR" := Setting_init 0 true "BAR" (Some "") None ]}
       toggles_parsed.2).

(** Every parameterized template of [cf] names a key of [st]: what loading
    a parsed file into the table establishes. *)
Definition template_known (st : gmap string Setting) (t : template) : bool :=
  match t with
  | TStr _ => true
  | TTuple nm _ _ => bool_decide (is_Some (st !! nm))
  end.

Definition templates_known (st : gmap string Setting) (cf : ConfigFile) : bool :=
  forallb (template_known st) (templates cf).

(** The symbols named by the parameterized templates, in order. *)
Fixpoint template_names (ts : list template) : list string :=
  match ts with
  | [] => []
  | TStr _ :: rest => template_names rest
  | TTuple nm _ _ :: rest => nm :: template_names rest
  end.

Definition event_name (ev : event) : string := ev.1.1.2.

(** The names yielded by one call of [_parse_line]. *)
Definition yielded (res : result (option event)) : list string :=
  match res with
  | Ok (Some ev) => [event_name ev]
  | _ => []
  end.

(** The file at [r] exists and is flagged as modified. *)
Definition dirty (r : ref) (w : world) : Prop :=
  exists cf, heap w !! r = Some cf /\ modified cf = true.

(** What a parse of the file at [r] may change: the object at [r], keeping
    its [filename] and [modified], and the trace, which only records the
    opening for reading. *)
Record parse_frame (r : ref) (w w' : world) : Prop := {
  pf_settings : settings w' = settings w;
  pf_configfiles : configfiles w' = configfiles w;
  pf_files : files w' = files w;
  pf_others : forall r', r' <> r -> heap w' !! r' = heap w !! r';
  pf_self : forall cf, heap w !! r = Some cf ->
            exists cf', heap w' !! r = Some cf'
                        /\ modified cf' = modified cf
                        /\ filename cf' = filename cf;
  pf_absent : heap w !! r = None -> heap w' !! r = None
}.

(** From [w] to [w']: every file object is still there, under the same
    path, and is still flagged if it was. *)
Definition flags_kept (w w' : world) : Prop :=
  forall r cf, heap w !! r = Some cf ->
    exists cf', heap w' !! r = Some cf'
                /\ filename cf' = filename cf
                /\ (modified cf = true -> modified cf' = true).

(** A method keeps the flags whatever its outcome. *)
Definition keeps {A} (m : M A) : Prop := forall w, flags_kept w (m w).2.

(** ** Text matched by a pattern *)

(** Every character of [s] is in the class [p]. *)
Fixpoint all_chars (p : ascii -> bool) (s : string) : bool :=
  match s with
  | EmptyString => true
  | String c s' => p c && all_chars p s'
  end.

(** [pre] is a text the pattern [r] can consume, taking the captures from
    [c] to [c']; a group records the text consumed inside it. *)
Fixpoint matched (r : regex) (pre : string) (c c' : captures) : Prop :=
  match r with
  | Lit t => pre = t /\ c' = c
  | Cls p => (exists a, pre = String a "" /\ p a = true) /\ c' = c
  | Star p => all_chars p pre = true /\ c' = c
  | Plus p => pre <> "" /\ all_chars p pre = true /\ c' = c
  | Opt r1 => matched r1 pre c c' \/ (pre = "" /\ c' = c)
  | Seq r1 r2 =>
      exists p1 p2 c1,
        pre = p1 ++ p2 /\ matched r1 p1 c c1 /\ matched r2 p2 c1 c'
  | Alt r1 r2 => matched r1 pre c c' \/ matched r2 pre c c'
  | Group g r1 => exists c1, matched r1 pre c c1 /\ c' = <[g := pre]> c1
  end.

(** ** What a write sends to its stream *)

(** The text [write_to_stream] writes for the templates [ts], line after
    line, up to the first template that cannot be rendered, and the
    exception that template raises. *)
Fixpoint render (st : gmap string Setting) (ts : list template)
    : string * option exn :=
  match ts with
  | [] => ("", None)
  | t :: rest =>
      match template_line st t with
      | Raise e => ("", Some e)
      | Ok line =>
          let '(text, err) := render st rest in
          (line ++ LF ++ text, err)
      end
  end.

Definition outcome (err : option exn) : result unit :=
  match err with None => Ok tt | Some e => Raise e end.

(** ** [class ConfigTool] *)

(** The subcommand and its own arguments, as [parse_args] leaves them in
    [self.parser_args]: [command] is [None] without a subcommand, and every
    subcommand that is not one of the five common ones was registered by
    [add_adapter] and carries its [adapter]. An omitted [VALUE] is [''], the
    default of the argument. *)
Inductive command : Type :=
| Cmd_none
| Cmd_get (symbol : string)
| Cmd_set (symbol : string) (val : string)
| Cmd_set_all (regexs : list string)
| Cmd_unset (symbol : string)
| Cmd_unset_all (regexs : list string)
| Cmd_adapter (adapter : string -> bool -> option string -> bool).

(** [self.parser_args]: the subcommand with the global options [--force]
    and [--write]. *)
Record parser_args : Type := mkArgs {
  args_command : command;
  args_force : bool;
  args_write : option string
}.

(** What [main] sends to the console. *)
Inductive console : Type :=
| Stdout (text : string)
| Stderr (text : string)
| Help.

Section Tool.

Variable re_search : string -> string -> bool.
Variable re_valid : string -> bool.

(** [ConfigTool.main]: the exit status and the console output. Only the
    [get] command, a refused [set] and a missing subcommand return before
    [self.config.write]. *)
Definition ConfigTool_main (args : parser_args) : M (nat * list console) :=
  match args_command args with
  | Cmd_none => ret (1, [Help])
  | Cmd_get symbol =>
      found <- gets (Config_contains symbol) ;;
      out <- (if (found : bool) then
                v <- (fun w => (Config_getitem symbol w, w)) ;;
                ret (if opt_truthy v
                     then [Stdout (default "" v ++ LF)] else [])
              else ret []) ;;
      again <- gets (Config_contains symbol) ;;
      ret (if (again : bool) then 0 else 1, out)
  | Cmd_set symbol val =>
      known <- gets (fun w => bool_decide (is_Some (settings w !! symbol))) ;;
      if negb (args_force args) && negb known then
        path <- Config_filename (Some symbol) ;;
        ret (1, [Stderr ("A #define for the symbol " ++ symbol
                         ++ " was not found in " ++ path ++ LF)])
      else
        Config_set symbol (Some val) ;;;
        Config_write (args_write args) ;;;
        ret (0, [])
  | Cmd_set_all regexs =>
      Config_change_matching re_search re_valid regexs true ;;;
      Config_write (args_write args) ;;;
      ret (0, [])
  | Cmd_unset symbol =>
      Config_unset symbol ;;;
      Config_write (args_write args) ;;;
      ret (0, [])
  | Cmd_unset_all regexs =>
      Config_change_matching re_search re_valid regexs false ;;;
      Config_write (args_write args) ;;;
      ret (0, [])
  | Cmd_adapter adapter =>
      Config_adapt adapter ;;;
      Config_write (args_write args) ;;;
      ret (0, [])
  end.

End Tool.

Ltac run_monad :=
  unfold bind, ret, raise, lift, gets, modify, getitem, settings_getitem,
         mark_modified, update_setting, deref, store, open_write,
         stream_write; simpl.

(** ** Queries *)

Lemma known_spec nm w :
  Config_known nm w = true <-> is_Some (settings w !! nm).
Proof. unfold Config_known. apply bool_decide_eq_true. Qed.

Lemma getitem_known nm s w :
  settings w !! nm = Some s -> Config_getitem nm w = Ok (value s).
Proof. intros H. unfold Config_getitem, settings_getitem. now rewrite H. Qed.

Lemma getitem_unknown nm w :
  settings w !! nm = None -> Config_getitem nm w = Raise KeyError.
Proof. intros H. unfold Config_getitem, settings_getitem. now rewrite H. Qed.

Lemma get_known nm d s w :
  settings w !! nm = Some s -> Config_get nm d w = value s.
Proof.
  intros H. unfold Config_get. rewrite H.
  rewrite bool_decide_eq_true_2; eauto.
Qed.

Lemma get_unknown nm d w :
  settings w !! nm = None -> Config_get nm d w = d.
Proof.
  intros H. unfold Config_get. rewrite H.
  rewrite bool_decide_eq_false_2; [done|]. intros [? ?]; discriminate.
Qed.

(** C1, as stated, fails: for the known but commented-out [BAZ] of the
    sample table, [config["BAZ"]] does not raise [KeyError]. *)
Lemma C1_getitem_inactive_no_KeyError :
  ~ (Config_contains "BAZ" sample_world = false
     /\ Config_known "BAZ" sample_world = true
     /\ Config_getitem "BAZ" sample_world = Raise KeyError).
Proof. intros (_ & _ & H). vm_compute in H. discriminate. Qed.

(** C1, amended: for every known but inactive symbol, [name in config] is
    false, [known(name)] is true, and [config[name]] returns the stored
    value; [config[name]] raises [KeyError] exactly for the names that are
    not known. *)
Theorem C1_known_inactive_queries (nm : string) (s : Setting) (w : world) :
  settings w !! nm = Some s ->
  active s = false ->
  Config_contains nm w = false
  /\ Config_known nm w = true
  /\ Config_getitem nm w = Ok (value s)
  /\ (forall other, Config_getitem other w = Raise KeyError
                    <-> Config_known other w = false).
Proof.
  intros Hs Ha. repeat split.
  - unfold Config_contains. now rewrite Hs.
  - apply known_spec. eauto.
  - now apply getitem_known.
  - intros H. destruct (settings w !! other) as [s'|] eqn:E.
    + rewrite (getitem_known _ _ _ E) in H. discriminate.
    + unfold Config_known. apply bool_decide_eq_false_2.
      rewrite E. intros [? ?]; discriminate.
  - intros H. apply getitem_unknown.
    destruct (settings w !! other) eqn:E; [|done].
    unfold Config_known in H. rewrite E in H.
    rewrite bool_decide_eq_true_2 in H; [discriminate | eauto].
Qed.

Lemma C1_known_inactive_queries_witness :
  Config_contains "BAZ" sample_world = false
  /\ Config_known "BAZ" sample_world = true
  /\ Config_getitem "BAZ" sample_world = Ok (Some "7")
  /\ (forall other, Config_getitem other sample_world = Raise KeyError
                    <-> Config_known other sample_world = false).
Proof.
  apply (C1_known_inactive_queries "BAZ"
           (Setting_init 0 false "BAZ" (Some "7") None) sample_world).
  - vm_compute. reflexivity.
  - reflexivity.
Defined.

(** C5 on the code: [get("BAZ", default)] on the known but commented-out
    [BAZ] returns the stored value [7], not the default. *)
Theorem C5_get_inactive_returns_value :
  Config_contains "BAZ" sample_world = false
  /\ Config_get "BAZ" (Some "fallback") sample_world = Some "7".
Proof. split; vm_compute; reflexivity. Qed.

(** ** Mutations *)

Lemma is_Some_true {A} (o : option A) (x : A) :
  o = Some x -> bool_decide (is_Some o) = true.
Proof. intros ->. apply bool_decide_eq_true_2. eauto. Qed.

Lemma is_Some_false {A} (o : option A) :
  o = None -> bool_decide (is_Some o) = false.
Proof. intros ->. apply bool_decide_eq_false_2. intros [? ?]; discriminate. Qed.

(** [__setitem__] on a known name: the owner is always flagged, because a
    [Setting] never equals a value. *)
Lemma setitem_known nm v s w :
  settings w !! nm = Some s ->
  Config_setitem nm v w =
    (Ok tt,
     with_settings (alter (set_value v) nm (settings w))
       (with_heap (alter (set_modified true) (configfile s) (heap w)) w)).
Proof.
  intros Hs. unfold Config_setitem. run_monad. rewrite Hs.
  destruct v; reflexivity.
Qed.

(** [set(name)] without a value on a known name whose value is a [str]. *)
Lemma set_known_novalue nm s txt w :
  settings w !! nm = Some s ->
  value s = Some txt ->
  Config_set nm None w =
    (Ok tt,
     with_settings (alter (set_active true) nm (settings w))
       (with_heap (alter (set_modified true) (configfile s) (heap w)) w)).
Proof.
  intros Hs Hv. unfold Config_set. run_monad.
  rewrite (is_Some_true _ _ Hs), Hs, Hv. reflexivity.
Qed.

(** C2 on the code: on the unmodified sample table, where [FOO] is active
    with value [1], both [config["FOO"] = "1"] and [set("FOO")] return
    normally, leave [FOO] active with value [1], and flag the file as
    modified. *)
Theorem C2_noop_mutations_mark_modified :
  modified <$> heap sample_world !! 0 = Some false
  /\ (Config_setitem "FOO" (Some "1") sample_world).1 = Ok tt
  /\ settings (Config_setitem "FOO" (Some "1") sample_world).2 !! "FOO"
     = settings sample_world !! "FOO"
  /\ modified <$> heap (Config_setitem "FOO" (Some "1") sample_world).2 !! 0
     = Some true
  /\ (Config_set "FOO" None sample_world).1 = Ok tt
  /\ settings (Config_set "FOO" None sample_world).2 !! "FOO"
     = settings sample_world !! "FOO"
  /\ modified <$> heap (Config_set "FOO" None sample_world).2 !! 0
     = Some true.
Proof. repeat split; vm_compute; reflexivity. Qed.

(** [_get_configfile] on a known, non-empty name reads [.configfile] off
    the macro value and raises. *)
Lemma get_configfile_known nm s w :
  settings w !! nm = Some s ->
  str_truthy nm = true ->
  Config__get_configfile (Some nm) w = (Raise AttributeError, w).
Proof.
  intros Hs Ht. unfold Config__get_configfile.
  rewrite Ht, (is_Some_true _ _ Hs). simpl.
  rewrite (get_known _ _ _ _ Hs). destruct (value s); reflexivity.
Qed.

Lemma get_configfile_unknown nm r rest w :
  settings w !! nm = None ->
  configfiles w = r :: rest ->
  Config__get_configfile (Some nm) w = (Ok r, w).
Proof.
  intros Hs Hc. unfold Config__get_configfile.
  rewrite (is_Some_false _ Hs), andb_false_r, Hc. reflexivity.
Qed.

(** C9 on the code: for the known symbol [FOO] of the sample table, owned
    by [config.h], [filename("FOO")] raises [AttributeError]; for an
    unknown or omitted name it returns the path of the first file. *)
Theorem C9_filename_known_raises :
  Config_known "FOO" sample_world = true
  /\ Config_filename (Some "FOO") sample_world
     = (Raise AttributeError, sample_world)
  /\ Config_filename (Some "NOPE") sample_world = (Ok "config.h", sample_world)
  /\ Config_filename None sample_world = (Ok "config.h", sample_world).
Proof. repeat split; vm_compute; reflexivity. Qed.

(** [filename] on any known, non-empty name raises. *)
Lemma filename_known_raises nm s w :
  settings w !! nm = Some s ->
  str_truthy nm = true ->
  Config_filename (Some nm) w = (Raise AttributeError, w).
Proof.
  intros Hs Ht. unfold Config_filename, bind.
  now rewrite (get_configfile_known _ _ _ Hs Ht).
Qed.

(** [set(name, value)] with the current value spelled out, on an active
    symbol, does leave every file as it was. *)
Lemma set_same_value_keeps_heap nm s txt w :
  settings w !! nm = Some s ->
  value s = Some txt ->
  active s = true ->
  (Config_set nm (Some txt) w).1 = Ok tt
  /\ heap (Config_set nm (Some txt) w).2 = heap w.
Proof.
  intros Hs Hv Ha. unfold Config_set. run_monad.
  rewrite (is_Some_true _ _ Hs). simpl. rewrite Hs, Hv, Ha. simpl.
  rewrite String.eqb_refl. simpl. auto.
Qed.

Lemma templates_alter_modified r r' (h : gmap ref ConfigFile) :
  templates <$> alter (set_modified true) r h !! r' = templates <$> h !! r'.
Proof.
  rewrite lookup_alter. case_decide; [subst|done].
  now destruct (h !! r').
Qed.

(** The world after [unset] on a known name. *)
Lemma unset_known nm s w :
  settings w !! nm = Some s ->
  Config_unset nm w =
    (Ok tt,
     with_settings (alter (set_active false) nm (settings w))
       (if active s
        then with_heap (alter (set_modified true) (configfile s) (heap w)) w
        else w)).
Proof.
  intros Hs. unfold Config_unset. run_monad.
  rewrite (is_Some_true _ _ Hs). simpl. rewrite Hs.
  destruct (active s); reflexivity.
Qed.

Lemma unset_unknown nm w :
  settings w !! nm = None -> Config_unset nm w = (Ok tt, w).
Proof.
  intros Hs. unfold Config_unset. run_monad.
  now rewrite (is_Some_false _ Hs).
Qed.

(** C10: for a known name, [unset] returns normally; afterwards the setting
    under that name is inactive and keeps its name, value, section and
    owning file; every other entry of the table is the same; the set of
    known names, the list of files, the set of file objects and the
    templates of every file are the same. *)
Theorem C10_unset_frame (nm : string) (s : Setting) (w : world) :
  settings w !! nm = Some s ->
  exists w' s',
    Config_unset nm w = (Ok tt, w')
    /\ settings w' !! nm = Some s'
    /\ active s' = false
    /\ name s' = name s /\ value s' = value s
    /\ section s' = section s /\ configfile s' = configfile s
    /\ (forall other, other <> nm -> settings w' !! other = settings w !! other)
    /\ dom (settings w') = dom (settings w)
    /\ configfiles w' = configfiles w
    /\ dom (heap w') = dom (heap w)
    /\ (forall r, templates <$> heap w' !! r = templates <$> heap w !! r).
Proof.
  intros Hs. eexists _, (set_active false s).
  split; [apply (unset_known _ _ _ Hs)|].
  split; [simpl; rewrite lookup_alter_eq, Hs; reflexivity|].
  do 5 (split; [reflexivity|]).
  split; [intros other Hne; simpl; now rewrite lookup_alter_ne|].
  split; [simpl; apply dom_alter_L|].
  destruct (active s); simpl.
  - split; [reflexivity|]. split; [apply dom_alter_L|].
    intros r. apply templates_alter_modified.
  - auto.
Qed.

Lemma C10_unset_frame_witness :
  exists w' s',
    Config_unset "FOO" sample_world = (Ok tt, w')
    /\ settings w' !! "FOO" = Some s'
    /\ active s' = false
    /\ name s' = "FOO" /\ value s' = Some "1"
    /\ section s' = None /\ configfile s' = 0
    /\ (forall other, other <> "FOO" ->
          settings w' !! other = settings sample_world !! other)
    /\ dom (settings w') = dom (settings sample_world)
    /\ configfiles w' = configfiles sample_world
    /\ dom (heap w') = dom (heap sample_world)
    /\ (forall r, templates <$> heap w' !! r
                  = templates <$> heap sample_world !! r).
Proof.
  apply (C10_unset_frame "FOO"
           (Setting_init 0 true "FOO" (Some "1") None) sample_world).
  vm_compute. reflexivity.
Defined.

(** The world after [set] on an unknown name, when a first file exists. *)
Lemma set_unknown nm v r rest w :
  settings w !! nm = None ->
  configfiles w = r :: rest ->
  Config_set nm v w =
    (Ok tt,
     with_heap (alter (set_modified true) r (heap w))
       (with_settings (<[nm := Setting_init r true nm v None]> (settings w)) w)).
Proof.
  intros Hs Hc. unfold Config_set. run_monad.
  rewrite (is_Some_false _ Hs). simpl.
  rewrite (is_Some_false _ Hs), andb_false_r, Hc. reflexivity.
Qed.

(** With no file at all, [set] on an unknown name raises at
    [self.configfiles[0]] and creates nothing. *)
Lemma set_unknown_no_file nm v w :
  settings w !! nm = None ->
  configfiles w = [] ->
  Config_set nm v w = (Raise IndexError, w).
Proof.
  intros Hs Hc. unfold Config_set. run_monad.
  rewrite (is_Some_false _ Hs). simpl.
  rewrite (is_Some_false _ Hs), andb_false_r, Hc. reflexivity.
Qed.






(** ** Rendering *)

Lemma append_empty_r (s : string) : s ++ "" = s.
Proof.
  induction s as [|c s IH]; [reflexivity|].
  change (String c (s ++ "") = String c s). now rewrite IH.
Qed.

Lemma append_assoc (a b c : string) : (a ++ b) ++ c = a ++ (b ++ c).
Proof.
  induction a as [|x a IH]; [reflexivity|].
  change (String x ((a ++ b) ++ c) = String x (a ++ (b ++ c))).
  now rewrite IH.
Qed.

Lemma str_truthy_true (s : string) : s <> "" -> str_truthy s = true.
Proof. destruct s; [congruence|reflexivity]. Qed.

(** A character of ['\t '] is a space character. *)
Lemma tab_or_blank_is_space (c : ascii) :
  char_in c (String "009" " ") = true -> is_space c = true.
Proof.
  simpl. rewrite orb_false_r. unfold ascii_eqb, is_space.
  intros [H|H]%orb_true_iff; apply Nat.eqb_eq in H; rewrite H; reflexivity.
Qed.

(** C6: [_format_template] on a non-empty prefix. With a non-empty value
    and a prefix that does not end in whitespace the line is the
    indentation, ["//"] for an inactive setting and nothing for an active
    one, the prefix, one space and the value; with an empty value the
    prefix is stripped of its trailing whitespace instead; with a non-empty
    value the space is inserted exactly when the prefix does not end in a
    tab or a blank, and the prefix is used as it is when it does; in every
    case the line starts with the indentation, then ["//"] exactly for an
    inactive setting, and the whole line is stripped of trailing
    whitespace. The line
    [// #define FOO] is parsed into the template [("FOO", "", "#define FOO")]
    and, once [FOO] is set, rendered as [#define FOO]; [#define BAR] with
    value [5] is rendered as [#define BAR 5]; and on the table of the two
    parsed lines, [set("FOO")], [config["BAR"] = "5"] and [write] leave
    exactly these two lines in the file. *)
Theorem C6_format_template (setting : Setting) (indent middle : string)
    (c : ascii) :
  last_char middle = Some c ->
  let val := default "" (value setting) in
  let comment := if active setting then "" else "//" in
  (val <> "" -> is_space c = false ->
     ConfigFile__format_template setting indent middle
     = Ok (rstrip (indent ++ comment ++ middle ++ " " ++ val)))
  /\ (val = "" ->
     ConfigFile__format_template setting indent middle
     = Ok (rstrip (indent ++ comment ++ rstrip middle)))
  /\ (val <> "" -> char_in c (String "009" " ") = false ->
     ConfigFile__format_template setting indent middle
     = Ok (rstrip (indent ++ comment ++ middle ++ " " ++ val)))
  /\ (val <> "" -> char_in c (String "009" " ") = true ->
     ConfigFile__format_template setting indent middle
     = Ok (rstrip (indent ++ comment ++ middle ++ val)))
  /\ ConfigFile__parse_line ("// #define FOO" ++ LF) (fresh_file "toggles.h" false)
     = (Ok (Some (false, "FOO", "", None)),
        append_template (TTuple "FOO" "" "#define FOO")
          (fresh_file "toggles.h" false))
  /\ ConfigFile__format_template
       (set_active true (Setting_init 0 false "FOO" (Some "") None))
       "" "#define FOO"
     = Ok "#define FOO"
  /\ ConfigFile__parse_line ("#define BAR" ++ LF) (fresh_file "toggles.h" false)
     = (Ok (Some (true, "BAR", "", None)),
        append_template (TTuple "BAR" "" "#define BAR")
          (fresh_file "toggles.h" false))
  /\ ConfigFile__format_template
       (set_value (Some "5") (Setting_init 0 true "BAR" (Some "") None))
       "" "#define BAR"
     = Ok "#define BAR 5"
  /\ toggles_parsed.1 = Ok [(false, "FOO", "", None); (true, "BAR", "", None)]
  /\ templates <$> heap toggles_world !! 0
     = Some [TTuple "FOO" "" "#define FOO"; TTuple "BAR" "" "#define BAR"]
  /\ files ((Config_set "FOO" None ;;;
             Config_setitem "BAR" (Some "5") ;;;
             Config_write None)%py toggles_world).2 !! "toggles.h"
     = Some ("#define FOO" ++ LF ++ "#define BAR 5" ++ LF).
Proof.
  intros Hlast val comment.
  assert (Hfix : val <> "" ->
            ConfigFile__format_template setting indent middle
            = Ok (rstrip (indent ++ comment
                          ++ (if char_in c (String "009" " ") then middle
                              else middle ++ " ") ++ val))).
  { intros Hval. unfold ConfigFile__format_template.
    change (match value setting with Some v => v | None => "" end) with val.
    rewrite (str_truthy_true _ Hval), Hlast.
    now destruct (char_in c (String "009" " ")). }
  split; [|split; [|split; [|split]]].
  - intros Hval Hc. rewrite (Hfix Hval).
    destruct (char_in c (String "009" " ")) eqn:E.
    + apply tab_or_blank_is_space in E. congruence.
    + now rewrite (append_assoc middle " " val).
  - intros Hval. unfold ConfigFile__format_template.
    change (match value setting with Some v => v | None => "" end) with val.
    rewrite Hval. simpl. subst comment.
    now rewrite append_empty_r.
  - intros Hval E. rewrite (Hfix Hval), E.
    now rewrite (append_assoc middle " " val).
  - intros Hval E. now rewrite (Hfix Hval), E.
  - repeat split; vm_compute; reflexivity.
Qed.

Lemma C6_format_template_witness :
  ConfigFile__format_template
    (Setting_init 0 false "BAR" (Some "5") None) "  " "#define BAR"
  = Ok "  //#define BAR 5"
  /\ ConfigFile__format_template
       (Setting_init 0 false "BAZ" (Some "7  ") None) "  " "#define BAZ "
     = Ok "  //#define BAZ 7".
Proof.
  split.
  - destruct (C6_format_template (Setting_init 0 false "BAR" (Some "5") None)
                "  " "#define BAR" "R") as (H & _).
    + reflexivity.
    + rewrite H; [reflexivity | discriminate | reflexivity].
  - destruct (C6_format_template (Setting_init 0 false "BAZ" (Some "7  ") None)
                "  " "#define BAZ " " ") as (_ & _ & _ & H & _).
    + reflexivity.
    + rewrite H; [reflexivity | discriminate | reflexivity].
Defined.

(** ** Parsing keeps the bookkeeping of the file *)

(** [_parse_line] never touches [filename] or [modified]. *)
Lemma parse_line_frame line self :
  modified (ConfigFile__parse_line line self).2 = modified self
  /\ filename (ConfigFile__parse_line line self).2 = filename self.
Proof.
  unfold ConfigFile__parse_line.
  repeat case_match; simpl; auto.
Qed.

Lemma parse_frame_refl r w : parse_frame r w w.
Proof. split; eauto. Qed.

Lemma parse_frame_trans r w1 w2 w3 :
  parse_frame r w1 w2 -> parse_frame r w2 w3 -> parse_frame r w1 w3.
Proof.
  intros [A1 A2 A3 A4 A5 A6] [B1 B2 B3 B4 B5 B6]. split; try congruence.
  - intros r' Hr. rewrite B4, A4; auto.
  - intros cf Hcf. destruct (A5 _ Hcf) as (cf2 & H2 & Hm & Hf).
    destruct (B5 _ H2) as (cf3 & H3 & Hm3 & Hf3).
    exists cf3. repeat split; congruence.
  - auto.
Qed.

Lemma parse_frame_store r w cf cf' :
  heap w !! r = Some cf ->
  modified cf' = modified cf ->
  filename cf' = filename cf ->
  parse_frame r w (with_heap (<[r := cf']> (heap w)) w).
Proof.
  intros Hcf Hm Hf. split; simpl; try reflexivity.
  - intros r' Hr. now rewrite lookup_insert_ne.
  - intros cf0 H0. exists cf'. rewrite lookup_insert_eq.
    repeat split; congruence.
  - congruence.
Qed.

Lemma parse_lines_cons r line rest w :
  parse_lines r (line :: rest) w =
  match heap w !! r with
  | None => (Raise ReferenceError, w)
  | Some cf =>
      let w1 := with_heap
                  (<[r := (ConfigFile__parse_line line cf).2]> (heap w)) w in
      match (ConfigFile__parse_line line cf).1 with
      | Raise e => (Raise e, w1)
      | Ok setting =>
          match parse_lines r rest w1 with
          | (Ok events, w2) =>
              (Ok (match setting with
                   | Some ev => ev :: events
                   | None => events
                   end), w2)
          | (Raise e, w2) => (Raise e, w2)
          end
      end
  end.
Proof.
  simpl. unfold bind, deref. destruct (heap w !! r) as [cf|]; [|reflexivity].
  destruct (ConfigFile__parse_line line cf) as [res cf']. simpl.
  unfold store, modify, lift. destruct res as [setting|e]; [|reflexivity].
  destruct (parse_lines r rest _) as [[events|e] w2]; reflexivity.
Qed.

Lemma parse_lines_frame r lines w :
  parse_frame r w (parse_lines r lines w).2
  /\ io_log (parse_lines r lines w).2 = io_log w.
Proof.
  revert w. induction lines as [|line rest IH]; intros w.
  - split; [apply parse_frame_refl|reflexivity].
  - rewrite parse_lines_cons.
    destruct (heap w !! r) as [cf|] eqn:Hcf;
      [|split; [apply parse_frame_refl|reflexivity]].
    pose proof (parse_line_frame line cf) as [Hm Hf].
    pose proof (parse_frame_store r w cf _ Hcf Hm Hf) as Hstep.
    cbv zeta.
    set (w1 := with_heap _ w) in *.
    destruct (ConfigFile__parse_line line cf).1 as [setting|e];
      [|split; [exact Hstep|reflexivity]].
    destruct (IH w1) as [Hrest Hlog].
    destruct (parse_lines r rest w1) as [[events|e] w2]; simpl in *;
      (split; [eapply parse_frame_trans; eassumption|exact Hlog]).
Qed.

Lemma parse_file_unfold r w :
  ConfigFile_parse_file r w =
  match heap w !! r with
  | None => (Raise ReferenceError, w)
  | Some cf =>
      match files w !! filename cf with
      | None => (Raise FileNotFoundError, w)
      | Some text =>
          let w0 := with_io (files w)
                      (io_log w ++ [OpenRead (filename cf)]) w in
          match parse_lines r (readlines text) w0 with
          | (Raise e, w1) => (Raise e, w1)
          | (Ok events, w1) =>
              match heap w1 !! r with
              | None => (Raise ReferenceError, w1)
              | Some cf1 =>
                  (Ok events,
                   with_heap (<[r := set_current_section None cf1]> (heap w1))
                     w1)
              end
          end
      end
  end.
Proof.
  unfold ConfigFile_parse_file, bind, deref, open_read.
  destruct (heap w !! r) as [cf|]; [|reflexivity].
  destruct (files w !! filename cf) as [text|]; [|reflexivity].
  cbv zeta. destruct (parse_lines r (readlines text) _) as [[events|e] w1];
    [|reflexivity].
  destruct (heap w1 !! r) as [cf1|]; reflexivity.
Qed.

Lemma parse_file_frame r w :
  parse_frame r w (ConfigFile_parse_file r w).2.
Proof.
  rewrite parse_file_unfold.
  destruct (heap w !! r) as [cf|] eqn:Hcf; [|apply parse_frame_refl].
  destruct (files w !! filename cf) as [text|]; [|apply parse_frame_refl].
  cbv zeta.
  set (w0 := with_io (files w) (io_log w ++ [OpenRead (filename cf)]) w).
  assert (H0 : parse_frame r w w0) by (split; simpl; eauto).
  destruct (parse_lines_frame r (readlines text) w0) as [H1 _].
  destruct (parse_lines r (readlines text) w0) as [[events|e] w1];
    simpl in H1; [|eapply parse_frame_trans; eassumption].
  destruct (heap w1 !! r) as [cf1|] eqn:Hcf1;
    [|eapply parse_frame_trans; eassumption].
  eapply parse_frame_trans; [exact H0|].
  eapply parse_frame_trans; [exact H1|].
  now apply (parse_frame_store r w1 cf1).
Qed.

(** ** Writing *)

(** An unmodified file written to its own path: nothing happens. *)
Lemma write_unmodified r cf st fname w :
  heap w !! r = Some cf ->
  modified cf = false ->
  fname = None \/ fname = Some (filename cf) ->
  ConfigFile_write r st fname w = (Ok tt, w).
Proof.
  intros Hcf Hm Hf. unfold ConfigFile_write, bind, deref. rewrite Hcf, Hm.
  destruct Hf as [-> | ->]; simpl; now rewrite String.eqb_refl.
Qed.

(** C3: a file whose [modified] flag is false, written without a filename
    or to its own path, returns normally and leaves the whole world (table,
    objects, file system, trace of file operations) as it was; and after
    [parse_file] on an unmodified file, whether it returned or raised,
    [write] again changes nothing, the file system being the one from
    before the parse. *)
Theorem C3_unmodified_write_no_io (r : ref) (cf : ConfigFile)
    (st : gmap string Setting) (fname : option string) (w : world) :
  heap w !! r = Some cf ->
  modified cf = false ->
  fname = None \/ fname = Some (filename cf) ->
  ConfigFile_write r st fname w = (Ok tt, w)
  /\ (let w' := (ConfigFile_parse_file r w).2 in
      ConfigFile_write r st fname w' = (Ok tt, w')
      /\ files w' = files w).
Proof.
  intros Hcf Hm Hf. split; [now apply (write_unmodified r cf)|].
  intros w'. pose proof (parse_file_frame r w) as Hp. fold w' in Hp.
  destruct (pf_self _ _ _ Hp _ Hcf) as (cf' & Hcf' & Hm' & Hf').
  split; [|apply (pf_files _ _ _ Hp)].
  apply (write_unmodified r cf'); [assumption|congruence|].
  destruct Hf as [-> | ->]; [now left|right; now rewrite Hf'].
Qed.

Lemma C3_unmodified_write_no_io_witness :
  ConfigFile_write 0 (settings sample_world) None sample_world
  = (Ok tt, sample_world)
  /\ (let w' := (ConfigFile_parse_file 0 sample_world).2 in
      ConfigFile_write 0 (settings sample_world) None w' = (Ok tt, w')
      /\ files w' = files sample_world).
Proof.
  eapply (C3_unmodified_write_no_io 0 _ (settings sample_world) None
            sample_world).
  - vm_compute. reflexivity.
  - reflexivity.
  - now left.
Defined.

(** ** The modified flag only ever goes up *)

Lemma flags_kept_refl w : flags_kept w w.
Proof. intros r cf H. eauto. Qed.

Lemma flags_kept_trans w1 w2 w3 :
  flags_kept w1 w2 -> flags_kept w2 w3 -> flags_kept w1 w3.
Proof.
  intros H12 H23 r cf H.
  destruct (H12 _ _ H) as (cf2 & H2 & Hf2 & Hm2).
  destruct (H23 _ _ H2) as (cf3 & H3 & Hf3 & Hm3).
  exists cf3. repeat split; [assumption|congruence|auto].
Qed.

Lemma flags_kept_same_heap w w' : heap w' = heap w -> flags_kept w w'.
Proof. intros E r cf H. rewrite E. eauto. Qed.

Lemma flags_kept_mark r w :
  flags_kept w (with_heap (alter (set_modified true) r (heap w)) w).
Proof.
  intros r' cf H. simpl. rewrite lookup_alter. case_decide; subst.
  - rewrite H. simpl. eauto.
  - eauto.
Qed.

Lemma parse_frame_flags r w w' : parse_frame r w w' -> flags_kept w w'.
Proof.
  intros Hp r' cf H. destruct (decide (r' = r)) as [->|Hne].
  - destruct (pf_self _ _ _ Hp _ H) as (cf' & H' & Hm & Hf).
    exists cf'. repeat split; [assumption..|congruence].
  - exists cf. rewrite (pf_others _ _ _ Hp _ Hne). auto.
Qed.

Lemma keeps_ret {A} (a : A) : keeps (ret a).
Proof. intros w. apply flags_kept_refl. Qed.

Lemma keeps_raise {A} e : keeps (@raise A e).
Proof. intros w. apply flags_kept_refl. Qed.

Lemma keeps_lift {A} (x : result A) : keeps (lift x).
Proof. intros w. apply flags_kept_refl. Qed.

Lemma keeps_gets {A} (f : world -> A) : keeps (gets f).
Proof. intros w. apply flags_kept_refl. Qed.

Lemma keeps_bind {A B} (m : M A) (k : A -> M B) :
  keeps m -> (forall a, keeps (k a)) -> keeps (bind m k).
Proof.
  intros Hm Hk w. unfold bind. specialize (Hm w).
  destruct (m w) as [[a|e] w1]; simpl in *; [|assumption].
  eapply flags_kept_trans; [eassumption|apply Hk].
Qed.

Lemma keeps_if {A} (b : bool) (m1 m2 : M A) :
  keeps m1 -> keeps m2 -> keeps (if b then m1 else m2).
Proof. now destruct b. Qed.

Lemma keeps_for_each {A} (l : list A) (body : A -> M unit) :
  (forall x, keeps (body x)) -> keeps (for_each l body).
Proof.
  intros Hb. induction l as [|x l IH]; simpl.
  - apply keeps_ret.
  - apply keeps_bind; auto.
Qed.

Lemma keeps_getitem nm : keeps (getitem nm).
Proof. intros w. apply flags_kept_refl. Qed.

Lemma keeps_mark_modified r : keeps (mark_modified r).
Proof. intros w. apply flags_kept_mark. Qed.

Lemma keeps_update_setting nm f : keeps (update_setting nm f).
Proof. intros w. now apply flags_kept_same_heap. Qed.

Lemma keeps_modify (f : world -> world) :
  (forall w, heap (f w) = heap w) -> keeps (modify f).
Proof. intros H w. apply flags_kept_same_heap, H. Qed.

Lemma keeps_deref r : keeps (deref r).
Proof. intros w. unfold deref. destruct (heap w !! r); apply flags_kept_refl. Qed.

Lemma keeps_open_write path : keeps (open_write path).
Proof.
  intros w. unfold open_write.
  destruct (unwritable w !! path); now apply flags_kept_same_heap.
Qed.

Lemma keeps_stream_write path text : keeps (stream_write path text).
Proof. now apply keeps_modify. Qed.

Create HintDb keeps.
#[local] Hint Resolve keeps_ret keeps_raise keeps_lift keeps_gets keeps_bind
  keeps_if keeps_for_each keeps_getitem keeps_mark_modified
  keeps_update_setting keeps_deref keeps_open_write keeps_stream_write
  : keeps.

Lemma keeps_get_configfile nm : keeps (Config__get_configfile nm).
Proof.
  intros w. unfold Config__get_configfile.
  repeat case_match; apply flags_kept_refl.
Qed.

Lemma keeps_setitem nm v : keeps (Config_setitem nm v).
Proof. unfold Config_setitem. auto 10 with keeps. Qed.

Lemma keeps_set nm v : keeps (Config_set nm v).
Proof.
  unfold Config_set. apply keeps_bind; [auto with keeps|].
  intros [|].
  - apply keeps_bind; [auto with keeps|]. intros s.
    repeat (apply keeps_bind; [|intros _]); auto with keeps.
    destruct v; auto with keeps.
  - apply keeps_bind; [apply keeps_get_configfile|]. intros cf.
    apply keeps_bind; [now apply keeps_modify|auto with keeps].
Qed.

Lemma keeps_unset nm : keeps (Config_unset nm).
Proof.
  unfold Config_unset. apply keeps_bind; [auto with keeps|].
  intros b. apply keeps_if; auto 10 with keeps.
Qed.

Lemma keeps_adapt adapter : keeps (Config_adapt adapter).
Proof.
  unfold Config_adapt. apply keeps_bind; [auto with keeps|]. intros keys.
  apply keeps_for_each. intros k. unfold adapt_step. auto 10 with keeps.
Qed.

Lemma keeps_change_matching re_search re_valid regexs enable :
  keeps (Config_change_matching re_search re_valid regexs enable).
Proof.
  unfold Config_change_matching. destruct regexs; [auto with keeps|].
  apply keeps_if; [|auto with keeps].
  apply keeps_bind; [auto with keeps|]. intros keys.
  apply keeps_for_each. intros k. unfold change_matching_step.
  auto 10 with keeps.
Qed.

Lemma keeps_write_to_stream self st out :
  keeps (ConfigFile_write_to_stream self st out).
Proof. unfold ConfigFile_write_to_stream. auto 10 with keeps. Qed.

Lemma keeps_file_write r st fname : keeps (ConfigFile_write r st fname).
Proof.
  unfold ConfigFile_write. apply keeps_bind; [auto with keeps|]. intros self.
  apply keeps_if; [auto with keeps|].
  apply keeps_bind; [auto with keeps|]. intros _.
  apply keeps_write_to_stream.
Qed.

Lemma keeps_write fname : keeps (Config_write fname).
Proof.
  unfold Config_write. apply keeps_bind; [auto with keeps|]. intros rs.
  apply keeps_for_each. intros r.
  apply keeps_bind; [auto with keeps|]. intros st. apply keeps_file_write.
Qed.

Lemma keeps_filename nm : keeps (Config_filename nm).
Proof.
  unfold Config_filename.
  apply keeps_bind; [apply keeps_get_configfile|auto with keeps].
Qed.

Lemma keeps_parse_file r : keeps (ConfigFile_parse_file r).
Proof. intros w. eapply parse_frame_flags, parse_file_frame. Qed.

Lemma keeps_file_init default_path role fname :
  keeps (ConfigFile_init default_path role fname).
Proof.
  intros w. unfold ConfigFile_init.
  destruct (match fname with
            | Some f => Some f
            | None => first_existing (files w) default_path
            end) as [f|]; [|apply flags_kept_refl].
  intros r cf H. simpl. exists cf. split; [|auto].
  rewrite lookup_insert_ne; [assumption|].
  intros E. pose proof (is_fresh (dom (heap w))) as Hfresh.
  apply Hfresh. rewrite E. apply elem_of_dom. eauto.
Qed.

Lemma keeps_load r : keeps (Config_load r).
Proof.
  unfold Config_load. apply keeps_bind; [apply keeps_parse_file|].
  intros events. apply keeps_for_each. intros [[[act nm] v] sec].
  now apply keeps_modify.
Qed.

Lemma keeps_open default_path role fname :
  keeps (Config_open default_path role fname).
Proof.
  unfold Config_open. apply keeps_bind; [apply keeps_file_init|]. intros r.
  apply keeps_bind; [now apply keeps_modify|]. intros _.
  apply keeps_bind; [apply keeps_load|auto with keeps].
Qed.

Lemma run_op_keeps re_search re_valid o w :
  flags_kept w (run_op re_search re_valid o w).
Proof.
  destruct o; simpl.
  - apply keeps_setitem.
  - apply keeps_set.
  - apply keeps_unset.
  - apply keeps_adapt.
  - apply keeps_change_matching.
  - apply keeps_write.
  - apply keeps_filename.
  - apply keeps_file_write.
  - apply keeps_parse_file.
  - apply keeps_file_init.
  - apply keeps_load.
  - apply keeps_open.
Qed.

Lemma run_ops_keeps re_search re_valid os w :
  flags_kept w (run_ops re_search re_valid os w).
Proof.
  revert w. induction os as [|o os IH]; intros w; simpl.
  - apply flags_kept_refl.
  - eapply flags_kept_trans; [apply run_op_keeps|apply IH].
Qed.

Lemma flags_kept_dirty r w w' : flags_kept w w' -> dirty r w -> dirty r w'.
Proof.
  intros Hk (cf & H & Hm). destruct (Hk _ _ H) as (cf' & H' & _ & Hm').
  exists cf'. auto.
Qed.

(** Whatever a method does to the trace, it only appends to it. *)
Lemma for_each_log {A} (l : list A) (body : A -> M unit) :
  (forall x w, exists more, io_log (body x w).2 = (io_log w ++ more)%list) ->
  forall w, exists more, io_log (for_each l body w).2 = (io_log w ++ more)%list.
Proof.
  intros Hb. induction l as [|x l IH]; intros w; simpl.
  - exists []. now rewrite app_nil_r.
  - unfold bind. destruct (Hb x w) as [m1 H1].
    destruct (body x w) as [[[]|e] w1]; simpl in *; [|eauto].
    destruct (IH w1) as [m2 H2]. exists (m1 ++ m2)%list.
    now rewrite H2, H1, app_assoc.
Qed.

Lemma write_to_stream_log self st out w :
  exists more,
    io_log (ConfigFile_write_to_stream self st out w).2 = (io_log w ++ more)%list.
Proof.
  unfold ConfigFile_write_to_stream. apply for_each_log. clear w.
  intros t w. unfold bind, lift.
  destruct (template_line st t) as [line|e]; simpl.
  - eauto.
  - exists []. now rewrite app_nil_r.
Qed.

(** A flagged file is opened for writing by [write], whatever the target. *)
Lemma write_dirty_opens r cf st fname w :
  heap w !! r = Some cf ->
  modified cf = true ->
  exists more,
    io_log (ConfigFile_write r st fname w).2
    = (io_log w ++ OpenWrite (default (filename cf) fname) :: more)%list.
Proof.
  intros Hcf Hm. unfold ConfigFile_write, bind at 1, deref.
  rewrite Hcf, Hm. simpl. unfold bind, open_write.
  set (target := match fname with None => filename cf | Some f => f end).
  replace (default (filename cf) fname) with target by now destruct fname.
  destruct (unwritable w !! target) as [e|]; [exists []; reflexivity|].
  match goal with
  | |- context [ConfigFile_write_to_stream cf st target ?u] =>
      destruct (write_to_stream_log cf st target u) as [more Hmore];
      exists more; rewrite Hmore; simpl; now rewrite <- app_assoc
  end.
Qed.

(** Deactivating an active symbol flags its file. *)
Lemma unset_active_dirty nm s cf w :
  settings w !! nm = Some s ->
  active s = true ->
  heap w !! configfile s = Some cf ->
  dirty (configfile s) (Config_unset nm w).2.
Proof.
  intros Hs Ha Hcf. rewrite (unset_known _ _ _ Hs), Ha.
  exists (set_modified true cf). simpl. now rewrite lookup_alter_eq, Hcf.
Qed.

(** Activating an inactive symbol flags its file. *)
Lemma set_inactive_dirty nm v s cf w :
  settings w !! nm = Some s ->
  active s = false ->
  heap w !! configfile s = Some cf ->
  dirty (configfile s) (Config_set nm v w).2.
Proof.
  intros Hs Ha Hcf. unfold Config_set. run_monad.
  rewrite (is_Some_true _ _ Hs). simpl. rewrite Hs, Ha, orb_true_r.
  exists (set_modified true cf).
  destruct v; simpl; now rewrite lookup_alter_eq, Hcf.
Qed.

(** C4: a new [ConfigFile] starts with [modified] false; deactivating an
    active symbol or activating an inactive one flags the owning file; and
    once a file is flagged, it is still flagged after any sequence of calls
    ([__setitem__], [set], [unset], [adapt], [change_matching], [write] on
    the table or on a file, [filename], [parse_file], the creation and
    loading of files), whether they return or raise, so that a [write] of
    that file then calls [open] on its target for writing. *)
Theorem C4_modified_sticky (re_search : string -> string -> bool)
    (re_valid : string -> bool)
    (os : list op) (w : world) (r : ref) (st : gmap string Setting)
    (fname : option string) :
  dirty r w ->
  let w' := run_ops re_search re_valid os w in
  dirty r w'
  /\ (exists cf more,
        heap w' !! r = Some cf
        /\ io_log (ConfigFile_write r st fname w').2
           = (io_log w' ++ OpenWrite (default (filename cf) fname) :: more)%list)
  /\ dirty r (ConfigFile_write r st fname w').2
  /\ (forall default_path role f0 u r0 u',
        ConfigFile_init default_path role f0 u = (Ok r0, u') ->
        modified <$> heap u' !! r0 = Some false)
  /\ (forall nm s cf u,
        settings u !! nm = Some s -> active s = true ->
        heap u !! configfile s = Some cf ->
        dirty (configfile s) (Config_unset nm u).2)
  /\ (forall nm v s cf u,
        settings u !! nm = Some s -> active s = false ->
        heap u !! configfile s = Some cf ->
        dirty (configfile s) (Config_set nm v u).2).
Proof.
  intros Hd w'.
  assert (Hd' : dirty r w')
    by (eapply flags_kept_dirty; [apply run_ops_keeps|exact Hd]).
  split; [exact Hd'|]. split; [|split; [|split; [|split]]].
  - destruct Hd' as (cf & Hcf & Hm). exists cf.
    destruct (write_dirty_opens r cf st fname w' Hcf Hm) as [more H].
    eauto.
  - eapply flags_kept_dirty; [apply keeps_file_write|exact Hd'].
  - intros default_path role f0 u r0 u' H. unfold ConfigFile_init in H.
    destruct (match f0 with
              | Some f => Some f
              | None => first_existing (files u) default_path
              end) as [f|]; [|discriminate].
    injection H as <- <-. simpl. now rewrite lookup_insert_eq.
  - intros. eapply unset_active_dirty; eassumption.
  - intros. eapply set_inactive_dirty; eassumption.
Qed.

Lemma C4_modified_sticky_witness :
  let w := (Config_unset "FOO" sample_world).2 in
  let w' := run_ops (fun _ _ => false) (fun _ => true)
              [Op_set "FOO" None; Op_write None; Op_parse_file 0] w in
  dirty 0 w
  /\ dirty 0 w'
  /\ exists cf more,
       heap w' !! 0 = Some cf
       /\ io_log (ConfigFile_write 0 (settings w') None w').2
          = (io_log w' ++ OpenWrite (default (filename cf) None) :: more)%list.
Proof.
  intros w w'.
  assert (Hd : dirty 0 w).
  { eexists. split; vm_compute; reflexivity. }
  split; [exact Hd|].
  destruct (C4_modified_sticky (fun _ _ => false) (fun _ => true)
              [Op_set "FOO" None; Op_write None; Op_parse_file 0]
              w 0 (settings w') None Hd) as (H1 & H2 & _).
  split; assumption.
Defined.

(** ** Inclusion guards *)

(** C7 on the code: in a file whose first two lines are [#ifndef A_H] and
    [#ifndef B_H], the first line is captured as the inclusion guard and
    kept verbatim; the second enters the branch of the define lines with
    every group of the define pattern unset, and the sum that builds the
    template text raises [TypeError]: no template is appended, nothing is
    yielded, and [parse_file] stops there. The guard's own [#define A_H]
    is kept verbatim. *)
Theorem C7_second_ifndef_raises :
  ConfigFile__parse_line ("#ifndef A_H" ++ LF) (fresh_file "twice.h" false)
  = (Ok None,
     set_inclusion_guard (Some "A_H")
       (append_template (TStr "#ifndef A_H") (fresh_file "twice.h" false)))
  /\ (let guarded :=
        set_inclusion_guard (Some "A_H")
          (append_template (TStr "#ifndef A_H") (fresh_file "twice.h" false)) in
      ConfigFile__parse_line ("#ifndef B_H" ++ LF) guarded
      = (Raise TypeError, guarded)
      /\ ConfigFile__parse_line ("#define A_H" ++ LF) guarded
         = (Ok None, append_template (TStr "#define A_H") guarded))
  /\ (let w := (ConfigFile_init ["twice.h"] "config" None
                  (Config_init two_guards)).2 in
      (ConfigFile_parse_file 0 w).1 = Raise TypeError
      /\ templates <$> heap (ConfigFile_parse_file 0 w).2 !! 0
         = Some [TStr "#ifndef A_H"]).
Proof. repeat split; vm_compute; reflexivity. Qed.

(** *** Which groups a match of a line sets *)

Lemma star_some {A} p s (k : string -> option A) x :
  star p s k = Some x -> exists s', k s' = Some x.
Proof.
  induction s as [|c s IH]; simpl; [eauto|].
  destruct (p c); [|eauto].
  destruct (star p s k) eqn:E; [|eauto].
  intros [= <-]. now apply IH.
Qed.

(** A greedy repetition before a continuation that cannot fail takes the
    longest run. *)
Lemma star_total {A} p s (k : string -> option A) :
  (forall s', is_Some (k s')) -> star p s k = k (skip p s).
Proof.
  intros Hk. induction s as [|c s IH]; simpl; [reflexivity|].
  destruct (p c); [|reflexivity].
  rewrite IH. destruct (Hk (skip p s)) as [x ->]. reflexivity.
Qed.

Lemma rmatch_caps r : forall s c k m,
  rmatch r s c k = Some m ->
  exists s' c', caps_of r c c' /\ k s' c' = Some m.
Proof.
  induction r as [t|p|p|p|r1 IH1|r1 IH1 r2 IH2|r1 IH1 r2 IH2|g r1 IH1];
    intros s c k m H; simpl in *.
  - destruct (strip_prefix t s); [eauto|discriminate].
  - destruct s as [|a s]; [discriminate|].
    destruct (p a); [eauto|discriminate].
  - apply star_some in H as [s' H]. eauto.
  - destruct s as [|a s]; [discriminate|].
    destruct (p a); [|discriminate].
    apply star_some in H as [s' H]. eauto.
  - destruct (rmatch r1 s c k) eqn:E.
    + injection H as ->. destruct (IH1 _ _ _ _ E) as (s' & c' & Hc & Hk).
      exists s', c'. auto.
    + exists s, c. auto.
  - destruct (IH1 _ _ _ _ H) as (s1 & c1 & Hc1 & H1).
    destruct (IH2 _ _ _ _ H1) as (s2 & c2 & Hc2 & H2).
    exists s2, c2. split; [exists c1; auto|assumption].
  - destruct (rmatch r1 s c k) eqn:E.
    + injection H as ->. destruct (IH1 _ _ _ _ E) as (s' & c' & Hc & Hk).
      exists s', c'. auto.
    + destruct (IH2 _ _ _ _ H) as (s' & c' & Hc & Hk).
      exists s', c'. auto.
  - destruct (IH1 _ _ _ _ H) as (s' & c' & Hc & Hk).
    exists s', (<[g := consumed s s']> c'). split; [|assumption].
    exists c', (consumed s s'). auto.
Qed.

Lemma re_match_caps r s m : re_match r s = Some m -> caps_of r ∅ m.
Proof.
  intros H. apply rmatch_caps in H as (s' & c' & Hc & [= <-]). exact Hc.
Qed.

(** A match of the line pattern went through exactly one of the three
    patterns: it sets the seven groups of the define pattern and no other,
    or [inclusion_guard] alone, or [section] alone. *)
Lemma config_match_shape line m :
  re_match _config_line_regexp line = Some m ->
  (exists indent co d n a sep v,
     m = <["value" := v]> (<["separator" := sep]> (<["arguments" := a]>
         (<["name" := n]> (<["define" := d]> (<["commented_out" := co]>
         (<["indentation" := indent]> ∅)))))))
  \/ (exists g, m = <["inclusion_guard" := g]> ∅)
  \/ (exists sec, m = <["section" := sec]> ∅).
Proof.
  intros H. apply re_match_caps in H. simpl in H.
  destruct H as [H|[H|H]].
  - left.
    repeat match goal with
           | H : exists _, _ |- _ => destruct H
           | H : _ /\ _ |- _ => destruct H
           | H : _ \/ _ |- _ => destruct H
           end; subst; eauto 10.
  - right; left.
    repeat match goal with
           | H : exists _, _ |- _ => destruct H
           | H : _ /\ _ |- _ => destruct H
           end; subst; eauto.
  - right; right.
    repeat match goal with
           | H : exists _, _ |- _ => destruct H
           | H : _ /\ _ |- _ => destruct H
           | H : _ \/ _ |- _ => destruct H
           end; subst; eauto.
Qed.

(** Once a guard is recorded, every line that matches through the
    [inclusion_guard] group makes [_parse_line] raise [TypeError] and leaves
    the object as it was. *)
Lemma parse_line_later_guard line self g m x :
  inclusion_guard self = Some g ->
  re_match _config_line_regexp (rstrip_crlf line) = Some m ->
  m !! "inclusion_guard" = Some x ->
  ConfigFile__parse_line line self = (Raise TypeError, self).
Proof.
  intros Hg Hm Hx. unfold ConfigFile__parse_line. rewrite Hm.
  destruct (config_match_shape _ _ Hm) as
    [(i & co & d & n & a & sep & v & ->)|[(g' & ->)|(sec & ->)]].
  - simplify_map_eq.
  - rewrite Hg. simplify_map_eq. simpl.
    rewrite andb_false_r. reflexivity.
  - simplify_map_eq.
Qed.

(** In the branch of the define lines, a match of the define pattern has
    all the groups the template and the tuple are built from. *)
Lemma define_groups_present line m d :
  re_match _config_line_regexp line = Some m ->
  m !! "define" = Some d ->
  is_Some (m !! "name") /\ is_Some (m !! "indentation")
  /\ is_Some (m !! "value") /\ is_Some (m !! "arguments")
  /\ is_Some (m !! "separator").
Proof.
  intros Hm Hd.
  destruct (config_match_shape _ _ Hm) as
    [(i & co & d' & n & a & sep & v & ->)|[(g' & ->)|(sec & ->)]];
    simplify_map_eq; repeat split; eauto.
Qed.

(** A line that starts with [#ifndef ] and a word character matches the
    line pattern through the [inclusion_guard] group. *)
Lemma ifndef_line_matches c rest :
  is_word c = true ->
  re_match _config_line_regexp ("#ifndef " ++ String c rest)
  = Some (<["inclusion_guard" :=
             consumed (String c rest) (skip is_word rest)]> ∅).
Proof.
  intros Hc. unfold re_match, _config_line_regexp.
  cbv beta iota fix delta [String.append].
  simpl. rewrite Hc.
  rewrite star_total by eauto. reflexivity.
Qed.

(** So every [#ifndef SYMBOL] line after the first one makes [_parse_line]
    raise. *)
Lemma later_ifndef_line_raises line c rest self g :
  rstrip_crlf line = "#ifndef " ++ String c rest ->
  is_word c = true ->
  inclusion_guard self = Some g ->
  ConfigFile__parse_line line self = (Raise TypeError, self).
Proof.
  intros Hline Hc Hg.
  eapply (parse_line_later_guard line self g); [exact Hg| |].
  - rewrite Hline. now apply ifndef_line_matches.
  - apply lookup_insert_eq.
Qed.

(** ** Loading makes every template name known *)

Lemma template_names_app ts1 ts2 :
  template_names (ts1 ++ ts2) = (template_names ts1 ++ template_names ts2)%list.
Proof.
  induction ts1 as [|[l|n i m] ts1 IH]; simpl; [reflexivity|assumption|].
  now rewrite IH.
Qed.

(** [_parse_line] appends one template; it is parameterized exactly when a
    tuple is yielded, and then names the yielded symbol. *)
Lemma parse_line_names line self :
  template_names (templates (ConfigFile__parse_line line self).2)
  = (template_names (templates self)
     ++ yielded (ConfigFile__parse_line line self).1)%list.
Proof.
  unfold ConfigFile__parse_line.
  repeat case_match; simpl; rewrite ?template_names_app, ?app_nil_r;
    reflexivity.
Qed.

Lemma parse_lines_names r lines : forall w events w2 cf,
  parse_lines r lines w = (Ok events, w2) ->
  heap w !! r = Some cf ->
  exists cf2,
    heap w2 !! r = Some cf2
    /\ template_names (templates cf2)
       = (template_names (templates cf) ++ map event_name events)%list
    /\ settings w2 = settings w.
Proof.
  induction lines as [|line rest IH]; intros w events w2 cf H Hcf.
  - injection H as <- <-. exists cf. now rewrite app_nil_r.
  - rewrite parse_lines_cons, Hcf in H. cbv zeta in H.
    pose proof (parse_line_names line cf) as Hn.
    destruct (ConfigFile__parse_line line cf) as [res cf1]. simpl in H, Hn.
    destruct res as [setting|e]; [|discriminate].
    set (w1 := with_heap (<[r := cf1]> (heap w)) w) in *.
    destruct (parse_lines r rest w1) as [[evs|e] w3] eqn:E; [|discriminate].
    injection H as <- <-.
    destruct (IH w1 evs w3 cf1 E) as (cf2 & H2 & Hn2 & Hs2).
    { apply lookup_insert_eq. }
    exists cf2. split; [assumption|]. split; [|exact Hs2].
    rewrite Hn2, Hn. destruct setting as [ev|]; simpl.
    + now rewrite <- app_assoc.
    + now rewrite app_nil_r.
Qed.

Lemma parse_file_names r w events w' cf :
  ConfigFile_parse_file r w = (Ok events, w') ->
  heap w !! r = Some cf ->
  exists cf',
    heap w' !! r = Some cf'
    /\ template_names (templates cf')
       = (template_names (templates cf) ++ map event_name events)%list
    /\ settings w' = settings w.
Proof.
  intros H Hcf. rewrite parse_file_unfold, Hcf in H.
  destruct (files w !! filename cf) as [text|]; [|discriminate].
  cbv zeta in H.
  set (w0 := with_io (files w) (io_log w ++ [OpenRead (filename cf)]) w) in *.
  destruct (parse_lines r (readlines text) w0) as [[evs|e] w1] eqn:E;
    [|discriminate].
  destruct (parse_lines_names r _ w0 evs w1 cf E Hcf) as (cf1 & H1 & Hn & Hs).
  rewrite H1 in H. injection H as <- <-.
  exists (set_current_section None cf1). simpl.
  rewrite lookup_insert_eq. auto.
Qed.

(** The loop of the loader: every yielded name becomes a key, and no key
    is lost. *)
Lemma load_loop (r : ref) (events : list event) : forall w,
  exists w',
    for_each events (fun ev =>
      let '(act, nm, v, sec) := ev in
      modify (fun w =>
        with_settings
          (<[nm := Setting_init r act nm (Some v) sec]> (settings w)) w)) w
    = (Ok tt, w')
    /\ heap w' = heap w
    /\ (forall n, is_Some (settings w !! n) \/ n ∈ map event_name events ->
                  is_Some (settings w' !! n)).
Proof.
  induction events as [|[[[act nm] v] sec] events IH]; intros w.
  - exists w. split; [reflexivity|]. split; [reflexivity|].
    intros n [H|H]; [assumption|]. inversion H.
  - simpl. unfold bind, modify at 1.
    set (w1 := with_settings _ w).
    destruct (IH w1) as (w' & Hrun & Hheap & Hkeys).
    exists w'. split; [exact Hrun|]. split; [exact Hheap|].
    intros n Hn. apply Hkeys.
    destruct (decide (n = nm)) as [->|Hne].
    + left. simpl. rewrite lookup_insert_eq. eauto.
    + destruct Hn as [Hn|Hn].
      * left. simpl. now rewrite lookup_insert_ne.
      * right. apply elem_of_cons in Hn as [Hn|Hn]; [|assumption].
        now destruct Hne.
Qed.

Lemma templates_known_names st cf :
  templates_known st cf = true
  <-> forall n, n ∈ template_names (templates cf) -> is_Some (st !! n).
Proof.
  unfold templates_known. induction (templates cf) as [|[l|n i m] ts IH]; simpl.
  - split; [|reflexivity]. intros _ n H. inversion H.
  - exact IH.
  - rewrite andb_true_iff, bool_decide_eq_true, IH. split.
    + intros [Hn Hts] n' [->|H]%elem_of_cons; auto.
    + intros H. split; [apply H; left|].
      intros n' Hn'. apply H. now right.
Qed.

(** After a successful load of the file at [r], its templates name known
    symbols only, provided they did before. *)
Lemma load_templates_known r w w' cf cf' :
  Config_load r w = (Ok tt, w') ->
  heap w !! r = Some cf ->
  templates_known (settings w) cf = true ->
  heap w' !! r = Some cf' ->
  templates_known (settings w') cf' = true.
Proof.
  intros Hload Hcf Hk Hcf'. unfold Config_load, bind in Hload.
  destruct (ConfigFile_parse_file r w) as [[events|e] w1] eqn:E;
    [|discriminate].
  destruct (parse_file_names r w events w1 cf E Hcf) as (cf1 & H1 & Hn & Hs).
  destruct (load_loop r events w1) as (w2 & Hrun & Hheap & Hkeys).
  rewrite Hrun in Hload. injection Hload as <-.
  rewrite Hheap, H1 in Hcf'. injection Hcf' as <-.
  apply templates_known_names. intros n Hin. apply Hkeys.
  rewrite Hn in Hin. apply elem_of_app in Hin as [Hin|Hin]; [|now right].
  left. rewrite Hs. now apply (proj1 (templates_known_names _ _) Hk).
Qed.

(** * Further properties of the table *)

(** The world after [set] on a known name. *)
Lemma set_known nm v s w :
  settings w !! nm = Some s ->
  Config_set nm v w =
    (Ok tt,
     with_settings
       (alter (set_active true) nm
          (match v with
           | Some _ => alter (set_value v) nm (settings w)
           | None => settings w
           end))
       (if py_ne (obj_of_value (value s)) (obj_of_value v) || negb (active s)
        then with_heap (alter (set_modified true) (configfile s) (heap w)) w
        else w)).
Proof.
  intros Hs. unfold Config_set. run_monad.
  rewrite (is_Some_true _ _ Hs). simpl. rewrite Hs.
  destruct (py_ne _ _ || negb (active s)); destruct v; reflexivity.
Qed.

(** X1: [set(name, value)] followed by a lookup. Whenever the name is known,
    or the table has a file to own a new setting, the call returns normally;
    afterwards the name is active, [config[name]] and [get(name, d)] give
    the value just set, every other entry is as before, and no list of
    templates has changed. *)
Theorem X1_set_then_lookup (nm v : string) (d : pyvalue) (w : world) :
  is_Some (settings w !! nm) \/ configfiles w <> [] ->
  exists w',
    Config_set nm (Some v) w = (Ok tt, w')
    /\ Config_contains nm w' = true
    /\ Config_getitem nm w' = Ok (Some v)
    /\ Config_get nm d w' = Some v
    /\ (forall other, other <> nm -> settings w' !! other = settings w !! other)
    /\ configfiles w' = configfiles w
    /\ (forall r, templates <$> heap w' !! r = templates <$> heap w !! r).
Proof.
  intros H. destruct (settings w !! nm) as [s|] eqn:Hs.
  - rewrite (set_known _ _ _ _ Hs).
    eexists. split; [reflexivity|].
    match goal with |- context [Config_contains nm ?W] => set (w' := W) end.
    assert (Hl : settings w' !! nm
                 = Some (set_active true (set_value (Some v) s)))
      by (unfold w'; simpl; now rewrite !lookup_alter_eq, Hs).
    split; [unfold Config_contains; now rewrite Hl|].
    split; [apply (getitem_known _ _ _ Hl)|].
    split; [apply (get_known _ _ _ _ Hl)|].
    unfold w'.
    destruct (py_ne (obj_of_value (value s)) (obj_of_value (Some v))
              || negb (active s)); simpl.
    + split; [intros other Hne; now rewrite !lookup_alter_ne by done|].
      split; [reflexivity|]. intros r. apply templates_alter_modified.
    + split; [intros other Hne; now rewrite !lookup_alter_ne by done|].
      split; reflexivity.
  - destruct H as [[? ?]|Hc]; [discriminate|].
    destruct (configfiles w) as [|r0 rest] eqn:Hcf; [congruence|].
    eexists. split; [apply (set_unknown _ _ _ _ _ Hs Hcf)|].
    match goal with |- context [Config_contains nm ?W] => set (w' := W) end.
    assert (Hl : settings w' !! nm
                 = Some (Setting_init r0 true nm (Some v) None))
      by apply lookup_insert_eq.
    split; [unfold Config_contains; now rewrite Hl|].
    split; [apply (getitem_known _ _ _ Hl)|].
    split; [apply (get_known _ _ _ _ Hl)|].
    split; [intros other Hne; unfold w'; simpl; now rewrite lookup_insert_ne|].
    split; [assumption|].
    intros r. unfold w'. simpl. apply templates_alter_modified.
Qed.

Lemma X1_set_then_lookup_witness :
  exists w',
    Config_set "BAZ" (Some "9") sample_world = (Ok tt, w')
    /\ Config_contains "BAZ" w' = true
    /\ Config_getitem "BAZ" w' = Ok (Some "9")
    /\ Config_get "BAZ" None w' = Some "9"
    /\ (forall other, other <> "BAZ" ->
          settings w' !! other = settings sample_world !! other)
    /\ configfiles w' = configfiles sample_world
    /\ (forall r, templates <$> heap w' !! r
                  = templates <$> heap sample_world !! r).
Proof.
  apply (X1_set_then_lookup "BAZ" "9" None sample_world).
  right. discriminate.
Defined.

(** X2: [set(name)] without a value on a known name returns normally,
    makes the name active and keeps its value, section and owner, whatever
    they were. *)
Theorem X2_set_without_value_keeps_value (nm : string) (s : Setting)
    (w : world) :
  settings w !! nm = Some s ->
  exists w',
    Config_set nm None w = (Ok tt, w')
    /\ settings w' !! nm = Some (set_active true s)
    /\ Config_contains nm w' = true
    /\ Config_getitem nm w' = Config_getitem nm w.
Proof.
  intros Hs. rewrite (set_known _ _ _ _ Hs).
  eexists. split; [reflexivity|].
  assert (Hl : alter (set_active true) nm (settings w) !! nm
               = Some (set_active true s)) by now rewrite lookup_alter_eq, Hs.
  unfold Config_contains, Config_getitem, settings_getitem.
  destruct (py_ne (obj_of_value (value s)) (obj_of_value None)
            || negb (active s)); simpl; rewrite Hl, Hs; auto.
Qed.

Lemma X2_set_without_value_keeps_value_witness :
  exists w',
    Config_set "BAZ" None sample_world = (Ok tt, w')
    /\ settings w' !! "BAZ"
       = Some (set_active true (Setting_init 0 false "BAZ" (Some "7") None))
    /\ Config_contains "BAZ" w' = true
    /\ Config_getitem "BAZ" w' = Config_getitem "BAZ" sample_world.
Proof.
  apply (X2_set_without_value_keeps_value "BAZ"
           (Setting_init 0 false "BAZ" (Some "7") None) sample_world).
  vm_compute. reflexivity.
Defined.

(** X3: [config[name] = value]. On a known name the call returns normally,
    [config[name]] then gives the new value, and the name is active after
    the call exactly if it was before (the assignment does not set it); the
    other entries are unchanged. On an unknown name the call raises
    [KeyError] and changes nothing. *)
Theorem X3_setitem_then_lookup (nm : string) (v : pyvalue) (w : world) :
  match settings w !! nm with
  | Some s =>
      exists w',
        Config_setitem nm v w = (Ok tt, w')
        /\ Config_getitem nm w' = Ok v
        /\ Config_contains nm w' = Config_contains nm w
        /\ settings w' !! nm = Some (set_value v s)
        /\ (forall other, other <> nm ->
              settings w' !! other = settings w !! other)
  | None => Config_setitem nm v w = (Raise KeyError, w)
  end.
Proof.
  destruct (settings w !! nm) as [s|] eqn:Hs.
  - rewrite (setitem_known _ _ _ _ Hs). eexists. split; [reflexivity|].
    assert (Hl : alter (set_value v) nm (settings w) !! nm
                 = Some (set_value v s)) by now rewrite lookup_alter_eq, Hs.
    unfold Config_getitem, settings_getitem, Config_contains. simpl.
    rewrite Hl, Hs. repeat split.
    intros other Hne. now rewrite lookup_alter_ne.
  - unfold Config_setitem. run_monad. now rewrite Hs.
Qed.

Lemma alter_idempotent {A} (f : A -> A) (k : string) (m : gmap string A) :
  (forall x, f (f x) = f x) -> alter f k (alter f k m) = alter f k m.
Proof.
  intros Hf. apply map_eq. intros j. destruct (decide (k = j)) as [->|Hne].
  - rewrite !lookup_alter_eq. destruct (m !! j); simpl; [now rewrite Hf|done].
  - now rewrite !lookup_alter_ne.
Qed.

(** X4: [unset(name)] always returns normally, and afterwards [name in
    config] is false while the name is known exactly if it was; on an
    unknown name nothing changes at all; and a second [unset(name)] changes
    nothing, not even a [modified] flag. *)
Theorem X4_unset_then_absent (nm : string) (w : world) :
  exists w',
    Config_unset nm w = (Ok tt, w')
    /\ Config_contains nm w' = false
    /\ Config_known nm w' = Config_known nm w
    /\ (settings w !! nm = None -> w' = w)
    /\ Config_unset nm w' = (Ok tt, w').
Proof.
  destruct (settings w !! nm) as [s|] eqn:Hs.
  - rewrite (unset_known _ _ _ Hs). eexists. split; [reflexivity|].
    match goal with |- context [Config_contains nm ?W] => set (w' := W) end.
    assert (Hl : settings w' !! nm = Some (set_active false s))
      by (unfold w'; simpl; now rewrite lookup_alter_eq, Hs).
    split; [unfold Config_contains; now rewrite Hl|].
    split; [unfold Config_known; now rewrite Hl, Hs,
              !bool_decide_eq_true_2 by eauto|].
    split; [discriminate|].
    rewrite (unset_known _ _ _ Hl). simpl. f_equal.
    unfold w', with_settings. simpl.
    rewrite alter_idempotent by reflexivity. reflexivity.
  - rewrite (unset_unknown _ _ Hs). exists w.
    split; [reflexivity|].
    split; [unfold Config_contains; now rewrite Hs|].
    split; [reflexivity|]. split; [reflexivity|].
    apply (unset_unknown _ _ Hs).
Qed.




(** ** The loops over all settings *)

Section Loops.

(** One iteration, on the key [k] of a setting [s]: the setting becomes
    [g s], and its file is flagged when [flip s] holds. *)
Variable step : string -> M unit.
Variable g : Setting -> Setting.
Variable flip : Setting -> bool.

Hypothesis step_known : forall k w s,
  settings w !! k = Some s ->
  step k w =
    (Ok tt,
     with_settings (alter g k (settings w))
       (if flip s
        then with_heap (alter (set_modified true) (configfile s) (heap w)) w
        else w)).

Lemma loop_over_keys (keys : list string) : forall w,
  NoDup keys ->
  (forall k, k ∈ keys -> is_Some (settings w !! k)) ->
  exists w',
    for_each keys step w = (Ok tt, w')
    /\ (forall k, settings w' !! k
                  = if bool_decide (k ∈ keys) then g <$> settings w !! k
                    else settings w !! k)
    /\ configfiles w' = configfiles w
    /\ files w' = files w
    /\ io_log w' = io_log w
    /\ dom (heap w') = dom (heap w)
    /\ (forall r cf, heap w !! r = Some cf ->
          exists cf',
            heap w' !! r = Some cf'
            /\ filename cf' = filename cf
            /\ templates cf' = templates cf
            /\ current_section cf' = current_section cf
            /\ inclusion_guard cf' = inclusion_guard cf
            /\ (modified cf' = true <->
                modified cf = true
                \/ exists k s, k ∈ keys /\ settings w !! k = Some s
                               /\ configfile s = r /\ flip s = true))
    /\ ((forall k s, k ∈ keys -> settings w !! k = Some s -> flip s = false) ->
        heap w' = heap w).
Proof.
  induction keys as [|k keys IH]; intros w Hnd Hin.
  - exists w. split; [reflexivity|]. split; [intros k; reflexivity|].
    do 4 (split; [reflexivity|]). split; [|reflexivity].
    intros r cf Hcf. exists cf. do 5 (split; [assumption || reflexivity|]).
    split; [tauto|]. intros [H|(k & s & Hk & _)]; [assumption|inversion Hk].
  - apply NoDup_cons in Hnd as [Hk Hnd].
    destruct (Hin k) as [s Hs]; [left|].
    simpl. unfold bind. rewrite (step_known _ _ _ Hs).
    set (w1 := with_settings _ _).
    assert (Hother : forall j, j <> k -> settings w1 !! j = settings w !! j).
    { intros j Hj. unfold w1. simpl. rewrite lookup_alter_ne by done.
      now destruct (flip s). }
    destruct (IH w1 Hnd) as (w' & Hrun & Hset & Hcfs & Hfiles & Hlog & Hdom
                             & Hheap & Hsame).
    { intros j Hj. rewrite Hother; [apply Hin; now right|].
      intros ->. contradiction. }
    exists w'. split; [exact Hrun|]. split.
    { intros j. rewrite Hset. destruct (decide (j = k)) as [->|Hj].
      - rewrite (bool_decide_eq_false_2 _ Hk), bool_decide_eq_true_2 by left.
        unfold w1. simpl. rewrite lookup_alter_eq. now destruct (flip s).
      - rewrite Hother by done.
        destruct (bool_decide (j ∈ keys)) eqn:E.
        + apply bool_decide_eq_true in E.
          now rewrite bool_decide_eq_true_2 by now right.
        + apply bool_decide_eq_false in E.
          rewrite bool_decide_eq_false_2; [reflexivity|].
          intros [?|?]%elem_of_cons; contradiction. }
    split; [rewrite Hcfs; unfold w1; now destruct (flip s)|].
    split; [rewrite Hfiles; unfold w1; now destruct (flip s)|].
    split; [rewrite Hlog; unfold w1; now destruct (flip s)|].
    split; [rewrite Hdom; unfold w1; destruct (flip s); simpl;
            [apply dom_alter_L|reflexivity]|].
    split.
    { intros r cf Hcf.
      assert (H1 : exists cf1,
                 heap w1 !! r = Some cf1
                 /\ filename cf1 = filename cf /\ templates cf1 = templates cf
                 /\ current_section cf1 = current_section cf
                 /\ inclusion_guard cf1 = inclusion_guard cf
                 /\ (modified cf1 = true <->
                     modified cf = true \/ (configfile s = r /\ flip s = true))).
      { unfold w1. destruct (flip s) eqn:Hf; simpl.
        - destruct (decide (configfile s = r)) as [<-|Hr].
          + exists (set_modified true cf). rewrite lookup_alter_eq, Hcf.
            simpl. repeat split; auto.
          + exists cf. rewrite lookup_alter_ne by done.
            repeat split; auto. intros [?|[? _]]; [assumption|contradiction].
        - exists cf. repeat split; auto.
          intros [?|[_ ?]]; [assumption|discriminate]. }
      destruct H1 as (cf1 & Hcf1 & Hfn1 & Hts1 & Hcs1 & Hig1 & Hm1).
      destruct (Hheap r cf1 Hcf1) as (cf' & Hcf' & Hfn & Hts & Hcs & Hig & Hm).
      exists cf'. split; [assumption|].
      do 4 (split; [congruence|]).
      rewrite Hm, Hm1. split.
      - intros [[H|[Hr Hf]]|(j & sj & Hj & Hsj & Hr & Hf)].
        + now left.
        + right. exists k, s. repeat split; auto. left.
        + right. exists j, sj. repeat split; auto; [now right|].
          rewrite <- Hother; [assumption|]. intros ->. contradiction.
      - intros [H|(j & sj & Hj & Hsj & Hr & Hf)]; [now left; left|].
        apply elem_of_cons in Hj as [->|Hj].
        + left; right. rewrite Hs in Hsj. injection Hsj as <-. auto.
        + right. exists j, sj. repeat split; auto.
          rewrite Hother; [assumption|]. intros ->. contradiction. }
    intros Hnone. rewrite Hsame.
    + unfold w1. rewrite (Hnone k s) by (assumption || left). reflexivity.
    + intros j sj Hj Hsj. apply (Hnone j sj); [now right|].
      rewrite <- Hother; [assumption|]. intros ->. contradiction.
Qed.

(** Over all the keys of the table. *)
Lemma loop_over_table (w : world) :
  exists w',
    for_each (settings_keys w) step w = (Ok tt, w')
    /\ settings w' = g <$> settings w
    /\ configfiles w' = configfiles w
    /\ files w' = files w
    /\ io_log w' = io_log w
    /\ dom (heap w') = dom (heap w)
    /\ (forall r cf, heap w !! r = Some cf ->
          exists cf',
            heap w' !! r = Some cf'
            /\ filename cf' = filename cf
            /\ templates cf' = templates cf
            /\ current_section cf' = current_section cf
            /\ inclusion_guard cf' = inclusion_guard cf
            /\ (modified cf' = true <->
                modified cf = true
                \/ exists k s, settings w !! k = Some s
                               /\ configfile s = r /\ flip s = true))
    /\ ((forall k s, settings w !! k = Some s -> flip s = false) ->
        heap w' = heap w).
Proof.
  assert (Hkeys : forall k, k ∈ settings_keys w <-> is_Some (settings w !! k)).
  { intros k. unfold settings_keys. rewrite list_elem_of_fmap. split.
    - intros ([k' s] & -> & H). apply elem_of_map_to_list in H. eauto.
    - intros [s H]. exists (k, s). split; [reflexivity|].
      now apply elem_of_map_to_list. }
  destruct (loop_over_keys (settings_keys w) w) as
    (w' & Hrun & Hset & Hcfs & Hfiles & Hlog & Hdom & Hheap & Hsame).
  { apply NoDup_fst_map_to_list. }
  { intros k. apply Hkeys. }
  exists w'. split; [exact Hrun|]. split.
  { apply map_eq. intros k. rewrite Hset, lookup_fmap.
    destruct (settings w !! k) as [s|] eqn:Hs.
    - rewrite bool_decide_eq_true_2; [reflexivity|]. apply Hkeys. eauto.
    - now destruct (bool_decide _). }
  do 4 (split; [assumption|]). split.
  - intros r cf Hcf.
    destruct (Hheap r cf Hcf) as (cf' & Hcf' & Hfn & Hts & Hcs & Hig & Hm).
    exists cf'. do 5 (split; [assumption|]). rewrite Hm. split.
    + intros [H|(k & s & _ & H)]; [now left|right; eauto].
    + intros [H|(k & s & Hs & H)]; [now left|].
      right. exists k, s. split; [apply Hkeys; eauto|auto].
  - intros Hnone. apply Hsame. intros k s _. apply Hnone.
Qed.

(** The loop leaves the refusals of the file system alone. *)
Lemma loop_over_keys_unwritable (keys : list string) : forall w,
  (forall k, k ∈ keys -> is_Some (settings w !! k)) ->
  unwritable (for_each keys step w).2 = unwritable w.
Proof.
  induction keys as [|k keys IH]; intros w Hin; [reflexivity|].
  destruct (Hin k) as [s Hs]; [left|].
  simpl. unfold bind. rewrite (step_known _ _ _ Hs).
  rewrite IH.
  - simpl. now destruct (flip s).
  - intros j Hj. simpl. rewrite lookup_alter_is_Some.
    destruct (flip s); apply Hin; now right.
Qed.

Lemma loop_over_table_unwritable (w : world) :
  unwritable (for_each (settings_keys w) step w).2 = unwritable w.
Proof.
  apply loop_over_keys_unwritable. intros k Hk.
  unfold settings_keys in Hk. apply list_elem_of_fmap in Hk as ([k' s] & -> & H).
  apply elem_of_map_to_list in H. eauto.
Qed.

End Loops.

Lemma world_eq (w w' : world) :
  settings w' = settings w -> configfiles w' = configfiles w ->
  heap w' = heap w -> files w' = files w -> io_log w' = io_log w ->
  unwritable w' = unwritable w ->
  w' = w.
Proof. destruct w, w'. simpl. now intros -> -> -> -> -> ->. Qed.

Lemma set_active_same (s : Setting) : set_active (active s) s = s.
Proof. now destruct s. Qed.

Lemma fmap_same {A} (f : A -> A) (m : gmap string A) :
  (forall k x, m !! k = Some x -> f x = x) -> f <$> m = m.
Proof.
  intros H. apply map_eq. intros k. rewrite lookup_fmap.
  destruct (m !! k) as [x|] eqn:E; simpl; [now rewrite (H k x E)|reflexivity].
Qed.

(** What [adapter] asks of a setting. *)
Lemma adapt_step_known adapter k w s :
  settings w !! k = Some s ->
  adapt_step adapter k w =
    (Ok tt,
     with_settings
       (alter (fun s => set_active (adapter (name s) (active s) (section s)) s)
              k (settings w))
       (if negb (Bool.eqb (adapter (name s) (active s) (section s)) (active s))
        then with_heap (alter (set_modified true) (configfile s) (heap w)) w
        else w)).
Proof.
  intros Hs. unfold adapt_step. run_monad. rewrite Hs. simpl.
  assert (E : alter (set_active (adapter (name s) (active s) (section s))) k
                (settings w)
              = alter (fun s => set_active
                                  (adapter (name s) (active s) (section s)) s)
                  k (settings w)).
  { apply map_eq. intros j. rewrite !lookup_alter.
    case_decide; subst; [|reflexivity]. now rewrite Hs. }
  destruct (negb _); unfold modify, with_settings, with_heap; simpl;
    now rewrite E.
Qed.


(** X7: an adapter that asks for the state every setting already has makes
    [adapt] a no-op: the whole world, flags included, is as before. *)
Theorem X7_adapt_agreeing_is_noop
    (adapter : string -> bool -> option string -> bool) (w : world) :
  (forall k s, settings w !! k = Some s ->
     adapter (name s) (active s) (section s) = active s) ->
  Config_adapt adapter w = (Ok tt, w).
Proof.
  intros Hagree.
  destruct (loop_over_table (adapt_step adapter) _ _
              (adapt_step_known adapter) w)
    as (w' & Hrun & Hset & Hcfs & Hfiles & Hlog & _ & _ & Hsame).
  pose proof (loop_over_table_unwritable (adapt_step adapter) _ _
                (adapt_step_known adapter) w) as Hun.
  unfold Config_adapt, bind, gets. rewrite Hrun in Hun |- *. f_equal.
  apply world_eq; try assumption.
  - rewrite Hset. apply fmap_same. intros k s Hs.
    rewrite (Hagree k s Hs). apply set_active_same.
  - apply Hsame. intros k s Hs. rewrite (Hagree k s Hs).
    now rewrite Bool.eqb_reflx.
Qed.

Lemma X7_adapt_agreeing_is_noop_witness :
  Config_adapt (fun _ act _ => act) sample_world = (Ok tt, sample_world).
Proof.
  apply (X7_adapt_agreeing_is_noop (fun _ act _ => act) sample_world).
  intros k s _. reflexivity.
Defined.

Lemma change_matching_step_known re_search regex enable k w s :
  settings w !! k = Some s ->
  change_matching_step re_search regex enable k w =
    (Ok tt,
     with_settings
       (alter (fun s => if re_search regex (name s)
                        then set_active enable s else s) k (settings w))
       (if re_search regex (name s) && negb (Bool.eqb (active s) enable)
        then with_heap (alter (set_modified true) (configfile s) (heap w)) w
        else w)).
Proof.
  intros Hs. unfold change_matching_step. run_monad. rewrite Hs. simpl.
  destruct (re_search regex (name s)) eqn:E; simpl.
  - assert (E1 : alter (set_active enable) k (settings w)
                 = alter (fun s => if re_search regex (name s)
                                   then set_active enable s else s)
                     k (settings w)).
    { apply map_eq. intros j. rewrite !lookup_alter.
      case_decide; subst; [|reflexivity]. rewrite Hs. simpl. now rewrite E. }
    destruct (negb _); unfold modify, with_settings, with_heap; simpl;
      now rewrite E1.
  - assert (E2 : alter (fun s => if re_search regex (name s)
                                 then set_active enable s else s)
                   k (settings w) = settings w).
    { apply map_eq. intros j. rewrite lookup_alter.
      case_decide; subst; [|reflexivity]. rewrite Hs. simpl. now rewrite E. }
    rewrite E2. now destruct w.
Qed.



(** X9: [change_matching] touches nothing when there is nothing to change.
    With no pattern at all it returns at once; when [re.compile] refuses
    the joined pattern it raises [re.error]; when every setting whose name
    matches is already in the requested state it returns normally. In all
    three cases the whole world is as before and no file is flagged. *)
Theorem X9_change_matching_noop
    (re_search : string -> string -> bool) (re_valid : string -> bool)
    (regexs : list string) (enable : bool) (w : world) :
  regexs = []
  \/ re_valid (join_bar regexs) = false
  \/ (forall k s, settings w !! k = Some s ->
        re_search (join_bar regexs) (name s) = true -> active s = enable) ->
  Config_change_matching re_search re_valid regexs enable w
  = (match regexs with
     | [] => Ok tt
     | _ => if re_valid (join_bar regexs) then Ok tt else Raise ReError
     end, w).
Proof.
  intros Hcase. destruct regexs as [|rx regexs]; [reflexivity|].
  unfold Config_change_matching.
  destruct (re_valid (join_bar (rx :: regexs))) eqn:Hvalid; [|reflexivity].
  destruct Hcase as [?|[?|Hdone]]; [discriminate..|].
  destruct (loop_over_table
              (change_matching_step re_search (join_bar (rx :: regexs)) enable)
              _ _
              (change_matching_step_known re_search (join_bar (rx :: regexs))
                 enable) w)
    as (w' & Hrun & Hset & Hcfs & Hfiles & Hlog & _ & _ & Hsame).
  pose proof (loop_over_table_unwritable
                (change_matching_step re_search (join_bar (rx :: regexs)) enable)
                _ _
                (change_matching_step_known re_search (join_bar (rx :: regexs))
                   enable) w) as Hun.
  unfold bind, gets. rewrite Hrun in Hun |- *. f_equal.
  apply world_eq; try assumption.
  - rewrite Hset. apply fmap_same. intros k s Hs.
    destruct (re_search _ (name s)) eqn:E; [|reflexivity].
    rewrite <- (Hdone k s Hs E). apply set_active_same.
  - apply Hsame. intros k s Hs.
    destruct (re_search _ (name s)) eqn:E; [|reflexivity].
    rewrite (Hdone k s Hs E). now rewrite Bool.eqb_reflx.
Qed.

Lemma X9_change_matching_noop_witness :
  Config_change_matching (fun _ nm => String.prefix "FO" nm) (fun _ => true)
    ["FO"] true sample_world = (Ok tt, sample_world).
Proof.
  apply (X9_change_matching_noop (fun _ nm => String.prefix "FO" nm)
           (fun _ => true) ["FO"] true sample_world).
  right. right. intros k s Hs Hm. unfold sample_world in Hs. simpl in Hs.
  destruct (decide (k = "FOO")) as [->|H1].
  - rewrite lookup_insert_eq in Hs. injection Hs as <-. reflexivity.
  - rewrite lookup_insert_ne in Hs by done.
    destruct (decide (k = "BAZ")) as [->|H2].
    + rewrite lookup_singleton_eq in Hs. injection Hs as <-. discriminate.
    + rewrite lookup_singleton_ne in Hs by done. discriminate.
Defined.

(** * Further properties of the files *)

Lemma first_existing_Some fs candidates f :
  first_existing fs candidates = Some f ->
  exists before after,
    candidates = (before ++ f :: after)%list
    /\ is_Some (fs !! f)
    /\ (forall c, c ∈ before -> fs !! c = None).
Proof.
  induction candidates as [|c rest IH]; simpl; [discriminate|].
  destruct (fs !! c) as [text|] eqn:E.
  - rewrite bool_decide_eq_true_2 by eauto. intros [= <-].
    exists [], rest. split; [reflexivity|]. split; [rewrite E; eauto|].
    intros c' H. inversion H.
  - rewrite bool_decide_eq_false_2 by (intros [? ?]; discriminate).
    intros H. destruct (IH H) as (before & after & -> & Hf & Hb).
    exists (c :: before), after. split; [reflexivity|]. split; [assumption|].
    intros c' [->|Hc]%elem_of_cons; auto.
Qed.

Lemma first_existing_None fs candidates :
  first_existing fs candidates = None ->
  forall c, c ∈ candidates -> fs !! c = None.
Proof.
  induction candidates as [|c rest IH]; simpl; intros H c' Hc'.
  - inversion Hc'.
  - destruct (fs !! c) as [text|] eqn:E.
    + rewrite bool_decide_eq_true_2 in H by eauto. discriminate.
    + rewrite bool_decide_eq_false_2 in H by (intros [? ?]; discriminate).
      apply elem_of_cons in Hc' as [->|Hc']; auto.
Qed.

(** X10: [ConfigFile(default_path, name, filename)]. With an explicit
    filename the constructor never raises, whether the file exists or not.
    Without one it takes the first candidate of [default_path] that exists,
    and raises [FileNotFoundError], changing nothing, exactly when none
    does. The new object is a new one: unmodified, without templates, guard
    or section, at an address no existing object has, and every existing
    object, the table and the file system are untouched. *)
Theorem X10_init_picks_first_existing (default_path : list string)
    (role : string) (fname : option string) (w : world) :
  match ConfigFile_init default_path role fname w with
  | (Ok r, w') =>
      heap w !! r = None
      /\ (exists f,
            heap w' !! r = Some (fresh_file f false)
            /\ (fname = Some f
                \/ fname = None
                   /\ exists before after,
                        default_path = (before ++ f :: after)%list
                        /\ is_Some (files w !! f)
                        /\ (forall c, c ∈ before -> files w !! c = None)))
      /\ (forall r', r' <> r -> heap w' !! r' = heap w !! r')
      /\ settings w' = settings w /\ configfiles w' = configfiles w
      /\ files w' = files w /\ io_log w' = io_log w
  | (Raise e, w') =>
      e = FileNotFoundError /\ w' = w /\ fname = None
      /\ (forall c, c ∈ default_path -> files w !! c = None)
  end.
Proof.
  unfold ConfigFile_init.
  assert (Hfresh : heap w !! fresh (dom (heap w)) = None).
  { apply not_elem_of_dom. apply is_fresh. }
  destruct fname as [f|].
  - split; [assumption|]. split.
    + exists f. simpl. rewrite lookup_insert_eq. auto.
    + split; [intros r' Hr; simpl; now rewrite lookup_insert_ne|auto].
  - destruct (first_existing (files w) default_path) as [f|] eqn:E.
    + split; [assumption|]. split.
      * exists f. simpl. rewrite lookup_insert_eq. split; [reflexivity|].
        right. split; [reflexivity|]. now apply first_existing_Some.
      * split; [intros r' Hr; simpl; now rewrite lookup_insert_ne|auto].
    + repeat split. now apply first_existing_None.
Qed.

(** [_parse_line] appends exactly one template when it returns. *)
Lemma parse_line_appends line self x self' :
  ConfigFile__parse_line line self = (Ok x, self') ->
  exists t, templates self' = (templates self ++ [t])%list.
Proof.
  unfold ConfigFile__parse_line. intros E.
  repeat case_match; simplify_eq; simpl; eauto.
Qed.

Lemma parse_lines_appends r lines : forall w events w2 cf,
  parse_lines r lines w = (Ok events, w2) ->
  heap w !! r = Some cf ->
  exists cf2 added,
    heap w2 !! r = Some cf2
    /\ templates cf2 = (templates cf ++ added)%list
    /\ length added = length lines
    /\ io_log w2 = io_log w /\ files w2 = files w.
Proof.
  induction lines as [|line rest IH]; intros w events w2 cf H Hcf.
  - injection H as <- <-. exists cf, []. now rewrite app_nil_r.
  - rewrite parse_lines_cons, Hcf in H. cbv zeta in H.
    destruct (ConfigFile__parse_line line cf) as [res cf1] eqn:Ep.
    simpl in H.
    destruct res as [setting|e]; [|discriminate].
    destruct (parse_line_appends _ _ _ _ Ep) as [t Ht].
    set (w1 := with_heap (<[r := cf1]> (heap w)) w) in *.
    destruct (parse_lines r rest w1) as [[evs|e] w3] eqn:E; [|discriminate].
    injection H as <- <-.
    destruct (IH w1 evs w3 cf1 E) as (cf2 & added & H2 & Hts & Hlen & Hl & Hf).
    { apply lookup_insert_eq. }
    exists cf2, (t :: added). split; [assumption|].
    split; [rewrite Hts, Ht; now rewrite <- app_assoc|].
    split; [simpl; now rewrite Hlen|auto].
Qed.

(** X11: [parse_file] on the object [cf]. If no file exists at its path,
    [FileNotFoundError] is raised and nothing changes. If the parse runs to
    the end, exactly one template has been appended per physical line, the
    parameterized ones naming the yielded symbols in order; the section
    cursor is reset; the only file operation is the opening for reading;
    and neither the table nor any file content has changed. *)
Theorem X11_parse_file_one_template_per_line (r : ref) (cf : ConfigFile)
    (w : world) :
  heap w !! r = Some cf ->
  match files w !! filename cf with
  | None => ConfigFile_parse_file r w = (Raise FileNotFoundError, w)
  | Some text =>
      forall events w',
        ConfigFile_parse_file r w = (Ok events, w') ->
        exists cf' added,
          heap w' !! r = Some cf'
          /\ templates cf' = (templates cf ++ added)%list
          /\ length added = length (readlines text)
          /\ template_names added = map event_name events
          /\ current_section cf' = None
          /\ io_log w' = (io_log w ++ [OpenRead (filename cf)])%list
          /\ files w' = files w
          /\ settings w' = settings w
  end.
Proof.
  intros Hcf. destruct (files w !! filename cf) as [text|] eqn:Hf.
  - intros events w' H.
    destruct (parse_file_names r w events w' cf H Hcf) as (cf' & Hcf' & Hn & Hs).
    rewrite parse_file_unfold, Hcf, Hf in H. cbv zeta in H.
    set (w0 := with_io (files w) (io_log w ++ [OpenRead (filename cf)]) w) in *.
    destruct (parse_lines r (readlines text) w0) as [[evs|e] w1] eqn:E;
      [|discriminate].
    destruct (parse_lines_appends r _ w0 evs w1 cf E Hcf)
      as (cf1 & added & H1 & Hts & Hlen & Hlog & Hfiles).
    rewrite H1 in H. injection H as <- <-.
    simpl in Hcf'. rewrite lookup_insert_eq in Hcf'. injection Hcf' as <-.
    exists (set_current_section None cf1), added. simpl.
    rewrite lookup_insert_eq. split; [reflexivity|].
    split; [assumption|]. split; [assumption|].
    split.
    { simpl in Hn. rewrite Hts, template_names_app in Hn.
      now apply app_inv_head in Hn. }
    split; [reflexivity|]. split; [assumption|]. split; [assumption|].
    assumption.
  - rewrite parse_file_unfold, Hcf, Hf. reflexivity.
Qed.

Lemma X11_parse_file_one_template_per_line_witness :
  (ConfigFile_parse_file 0 sample_world).1
  = Ok [(true, "FOO", "1", None); (false, "BAZ", "7", None)]
  /\ forall events w',
       ConfigFile_parse_file 0 sample_world = (Ok events, w') ->
       exists cf' added,
         heap w' !! 0 = Some cf'
         /\ templates cf'
            = ([TStr "/* options */"; TTuple "FOO" "" "#define FOO ";
                TTuple "BAZ" "" "#define BAZ "] ++ added)%list
         /\ length added = 3
         /\ template_names added = map event_name events
         /\ current_section cf' = None
         /\ io_log w' = [OpenRead "config.h"]
         /\ files w' = files sample_world
         /\ settings w' = settings sample_world.
Proof.
  split; [vm_compute; reflexivity|].
  pose proof (X11_parse_file_one_template_per_line 0
                {| filename := "config.h";
                   templates := [TStr "/* options */";
                                 TTuple "FOO" "" "#define FOO ";
                                 TTuple "BAZ" "" "#define BAZ "];
                   current_section := None;
                   inclusion_guard := None;
                   modified := false |} sample_world) as H.
  apply H. vm_compute. reflexivity.
Defined.

(** Once recorded, the guard stays, and a line is never yielded as the
    guard's own empty define. *)
Lemma parse_line_guard line self g :
  inclusion_guard self = Some g ->
  inclusion_guard (ConfigFile__parse_line line self).2 = Some g
  /\ (forall act n v sec,
        (ConfigFile__parse_line line self).1 = Ok (Some (act, n, v, sec)) ->
        ~ (n = g /\ v = "")).
Proof.
  intros Hg.
  destruct (ConfigFile__parse_line line self) as [res self'] eqn:E.
  unfold ConfigFile__parse_line in E. rewrite Hg in E. simpl.
  repeat case_match; simplify_eq; simpl;
    try (exfalso;
         match goal with
         | H : _ && bool_decide (Some _ = None) = true |- _ =>
             rewrite bool_decide_eq_false_2 in H by discriminate;
             rewrite andb_false_r in H; discriminate
         end);
    (split; [try assumption|]); try (intros act n v sec Hev; discriminate).
  intros act n v sec [= <- <- <- <-] [-> ->].
  rewrite !bool_decide_eq_true_2 in * by reflexivity. discriminate.
Qed.

(** A line recognised as a define of the guard's name with a value is a
    setting like any other. *)
Lemma parse_line_guard_valued line self g m v :
  inclusion_guard self = Some g ->
  re_match _config_line_regexp (rstrip_crlf line) = Some m ->
  m !! "name" = Some g -> m !! "value" = Some v -> v <> "" ->
  (ConfigFile__parse_line line self).1
  = Ok (Some (negb (opt_truthy (m !! "commented_out")), g, v,
              current_section self)).
Proof.
  intros Hg Hm Hn Hv Hne. unfold ConfigFile__parse_line. rewrite Hm, Hg.
  destruct (config_match_shape _ _ Hm)
    as [(indent & co & d & n & a & sep & v0 & ->)|[(g0 & ->)|(sec & ->)]];
    simplify_map_eq.
  rewrite (bool_decide_eq_false_2 (Some v = Some "")) by congruence.
  rewrite andb_false_r. reflexivity.
Qed.

(** X12: once a file object has recorded its inclusion guard, parsing
    further lines never changes it, whether the parse ends normally or
    raises, and never yields the guard's own empty define as a setting;
    while every line that is a [#define] of the guard's name with a
    non-empty value, commented out or not, is yielded as a setting with
    that name and that value whenever the parse ends normally. *)
Theorem X12_guard_kept_and_hidden (r : ref) (lines : list string)
    (g : string) (w : world) (cf : ConfigFile) :
  heap w !! r = Some cf ->
  inclusion_guard cf = Some g ->
  (exists cf', heap (parse_lines r lines w).2 !! r = Some cf'
               /\ inclusion_guard cf' = Some g)
  /\ (forall events act n v sec,
        (parse_lines r lines w).1 = Ok events ->
        (act, n, v, sec) ∈ events -> ~ (n = g /\ v = ""))
  /\ (forall pre line post m v events,
        lines = (pre ++ line :: post)%list ->
        re_match _config_line_regexp (rstrip_crlf line) = Some m ->
        m !! "name" = Some g -> m !! "value" = Some v -> v <> "" ->
        (parse_lines r lines w).1 = Ok events ->
        exists sec,
          (negb (opt_truthy (m !! "commented_out")), g, v, sec) ∈ events).
Proof.
  revert w cf. induction lines as [|line rest IH]; intros w cf Hcf Hg.
  - simpl. split; [eauto|]. split.
    + intros events act n v sec [= <-] Hin. inversion Hin.
    + intros [|p pre] line post m v events Hl; discriminate.
  - rewrite parse_lines_cons, Hcf. cbv zeta.
    destruct (parse_line_guard line cf g Hg) as [Hg1 Hev].
    pose proof (parse_line_guard_valued line cf g) as Hval.
    destruct (ConfigFile__parse_line line cf) as [res cf1]. simpl in *.
    set (w1 := with_heap (<[r := cf1]> (heap w)) w).
    assert (H1 : heap w1 !! r = Some cf1) by apply lookup_insert_eq.
    destruct res as [setting|e];
      [|split; [eauto|split; [discriminate|]];
        intros pre l post m v events _ _ _ _ _; discriminate].
    destruct (IH w1 cf1 H1 Hg1) as (Hkeep & Hrest & Hlater).
    destruct (parse_lines r rest w1) as [[evs|e] w2]; simpl in *;
      (split; [exact Hkeep|]);
      [|split; [discriminate|];
        intros pre l post m v events _ _ _ _ _; discriminate].
    split.
    + intros events act n v sec [= <-] Hin.
      destruct setting as [ev|].
      * apply elem_of_cons in Hin as [E|Hin];
          [apply (Hev act n v sec); now rewrite E|].
        now apply (Hrest evs act n v sec).
      * now apply (Hrest evs act n v sec).
    + intros pre l post m v events Hl Hm Hn Hv Hne [= <-].
      destruct pre as [|p pre]; simpl in Hl; injection Hl as -> ->.
      * pose proof (Hval m v Hg Hm Hn Hv Hne) as [= ->].
        exists (current_section cf). apply elem_of_cons. now left.
      * destruct (Hlater pre l post m v evs eq_refl Hm Hn Hv Hne eq_refl)
          as [sec Hin].
        exists sec. destruct setting; [apply elem_of_cons; now right|exact Hin].
Qed.

Lemma X12_guard_kept_and_hidden_witness :
  let w := with_heap {[ 0 := set_inclusion_guard (Some "C_H")
                                (fresh_file "c.h" false) ]}
             (Config_init ∅) in
  let lines := ["#define C_H" ++ LF; "#define C_H 1" ++ LF; "#define D" ++ LF] in
  (parse_lines 0 lines w).1
  = Ok [(true, "C_H", "1", None); (true, "D", "", None)]
  /\ (exists cf', heap (parse_lines 0 lines w).2 !! 0 = Some cf'
                  /\ inclusion_guard cf' = Some "C_H")
  /\ (forall events act n v sec,
        (parse_lines 0 lines w).1 = Ok events ->
        (act, n, v, sec) ∈ events -> ~ (n = "C_H" /\ v = ""))
  /\ (forall events,
        (parse_lines 0 lines w).1 = Ok events ->
        exists sec, (true, "C_H", "1", sec) ∈ events).
Proof.
  intros w lines. split; [vm_compute; reflexivity|].
  destruct (X12_guard_kept_and_hidden 0 lines "C_H" w
              (set_inclusion_guard (Some "C_H") (fresh_file "c.h" false)))
    as (H1 & H2 & H3).
  - vm_compute. reflexivity.
  - reflexivity.
  - split; [exact H1|]. split; [exact H2|].
    intros events Hev.
    destruct (H3 ["#define C_H" ++ LF] ("#define C_H 1" ++ LF)
                ["#define D" ++ LF]
                (<["value" := "1"]> (<["separator" := " "]>
                   (<["arguments" := ""]> (<["name" := "C_H"]>
                   (<["define" := "#define "]> (<["commented_out" := ""]>
                   (<["indentation" := ""]> ∅)))))))
                "1" events) as [sec Hin].
    + reflexivity.
    + vm_compute. reflexivity.
    + vm_compute. reflexivity.
    + vm_compute. reflexivity.
    + discriminate.
    + exact Hev.
    + exists sec.
      match type of Hin with
      | context [negb ?x] =>
          assert (E : negb x = true) by (vm_compute; reflexivity);
          rewrite E in Hin
      end.
      exact Hin.
Defined.

(** ** What a write leaves in the file *)

Lemma write_to_stream_render (st : gmap string Setting) (out : string)
    (ts : list template) : forall w old,
  files w !! out = Some old ->
  exists w',
    for_each ts (fun t =>
      line <- lift (template_line st t) ;;
      stream_write out (line ++ String "010" "")) w
    = (outcome (render st ts).2, w')
    /\ files w' = <[out := old ++ (render st ts).1]> (files w)
    /\ settings w' = settings w /\ configfiles w' = configfiles w
    /\ heap w' = heap w /\ unwritable w' = unwritable w.
Proof.
  induction ts as [|t ts IH]; intros w old Hold.
  - exists w. split; [reflexivity|]. split; [|auto]. simpl.
    rewrite append_empty_r. symmetry. now apply insert_id.
  - simpl. unfold bind at 1. unfold bind at 1. unfold lift.
    destruct (template_line st t) as [line|e]; simpl.
    + unfold stream_write, modify. rewrite Hold. simpl.
      set (w1 := with_io _ _ w).
      destruct (IH w1 (old ++ line ++ LF))
        as (w' & Hrun & Hf & Hs & Hc & Hh & Hu).
      { unfold w1. simpl. apply lookup_insert_eq. }
      destruct (render st ts) as [text err]. simpl in *.
      exists w'. split; [exact Hrun|]. split; [|auto].
      rewrite Hf. unfold w1. simpl. rewrite insert_insert_eq.
      f_equal. unfold LF. now rewrite !append_assoc.
    + exists w. split; [reflexivity|]. split; [|auto].
      rewrite append_empty_r. symmetry. now apply insert_id.
Qed.

Lemma template_line_ok st t :
  template_known st t = true ->
  (forall n i m, t = TTuple n i m -> m <> "") ->
  exists line, template_line st t = Ok line.
Proof.
  intros Hk Hm. destruct t as [line|n i m]; simpl; [eauto|].
  simpl in Hk. apply bool_decide_eq_true in Hk as [s Hs].
  unfold dict_getitem. rewrite Hs. unfold ConfigFile__format_template.
  destruct (last_char m) as [c|] eqn:E.
  - repeat case_match; eauto.
  - destruct m as [|a m]; [now destruct (Hm n i "")|].
    exfalso. clear -E. revert a E. induction m as [|b m IH]; intros a E.
    + discriminate.
    + simpl in E. now apply (IH b).
Qed.

Lemma render_ok st ts :
  forallb (template_known st) ts = true ->
  (forall n i m, TTuple n i m ∈ ts -> m <> "") ->
  (render st ts).2 = None.
Proof.
  induction ts as [|t ts IH]; intros Hk Hm; [reflexivity|].
  simpl in Hk. apply andb_true_iff in Hk as [Hk1 Hk2]. simpl.
  destruct (template_line_ok st t Hk1) as [line ->].
  { intros n i m ->. apply (Hm n i m). left. }
  specialize (IH Hk2). destruct (render st ts) as [text err]. simpl in *.
  apply IH. intros n i m H. apply (Hm n i m). now right.
Qed.

(** X13: a [write] that is not skipped (the file is flagged, or the target
    is another path). If [open] refuses the target, its exception is raised
    and no content changes. Otherwise the content of the target is replaced
    by the rendered lines of the templates, each followed by a line feed, in
    order; if a template names a symbol missing from the mapping
    ([KeyError]) or cannot be rendered, the exception is raised and the
    target is left holding the lines before that template only; nothing
    else changes, no other path, no object, no flag, no setting; and the
    write returns normally when every template names a known symbol and has
    a non-empty prefix. *)
Theorem X13_write_replaces_content (r : ref) (cf : ConfigFile)
    (st : gmap string Setting) (fname : option string) (w : world) :
  heap w !! r = Some cf ->
  modified cf = true \/ default (filename cf) fname <> filename cf ->
  match unwritable w !! default (filename cf) fname with
  | Some e =>
      ConfigFile_write r st fname w
      = (Raise e,
         with_io (files w)
           (io_log w ++ [OpenWrite (default (filename cf) fname)]) w)
  | None =>
      exists w',
        ConfigFile_write r st fname w
        = (outcome (render st (templates cf)).2, w')
        /\ files w'
           = <[default (filename cf) fname := (render st (templates cf)).1]>
               (files w)
        /\ heap w' = heap w
        /\ settings w' = settings w
        /\ configfiles w' = configfiles w
        /\ (templates_known st cf = true ->
            (forall n i m, TTuple n i m ∈ templates cf -> m <> "") ->
            ConfigFile_write r st fname w = (Ok tt, w'))
  end.
Proof.
  intros Hcf Hgo.
  set (target := match fname with None => filename cf | Some f => f end).
  replace (default (filename cf) fname) with target in * by now destruct fname.
  assert (Hskip : negb (modified cf) && String.eqb target (filename cf) = false).
  { destruct Hgo as [->|Hne]; [reflexivity|].
    apply andb_false_iff. right. now apply String.eqb_neq. }
  assert (Hunfold : ConfigFile_write r st fname w
                    = (_ <- open_write target ;;
                       ConfigFile_write_to_stream cf st target) w).
  { unfold ConfigFile_write, bind at 1, deref. rewrite Hcf.
    fold target. now rewrite Hskip. }
  rewrite Hunfold. unfold bind, open_write.
  destruct (unwritable w !! target) as [e|]; [reflexivity|].
  set (w0 := with_io (<[target := ""]> (files w))
                     (io_log w ++ [OpenWrite target]) w).
  destruct (write_to_stream_render st target (templates cf) w0 "")
    as (w' & Hrun & Hf & Hs & Hc & Hh & _).
  { apply lookup_insert_eq. }
  exists w'. unfold ConfigFile_write_to_stream. rewrite Hrun.
  split; [reflexivity|]. split.
  { rewrite Hf. unfold w0. simpl. now rewrite insert_insert_eq. }
  do 3 (split; [assumption|]).
  intros Hk Hm. now rewrite (render_ok st (templates cf) Hk Hm).
Qed.

Lemma X13_write_replaces_content_witness :
  (exists w',
    ConfigFile_write 0 (settings sample_world) (Some "out.h") sample_world
    = (Ok tt, w')
    /\ files w'
       = <["out.h" := "/* options */" ++ LF ++ "#define FOO 1" ++ LF
                     ++ "//#define BAZ 7" ++ LF]> (files sample_world)
    /\ heap w' = heap sample_world
    /\ settings w' = settings sample_world
    /\ configfiles w' = configfiles sample_world)
  /\ (let w := {| settings := settings sample_world;
                  configfiles := configfiles sample_world;
                  heap := heap sample_world;
                  files := files sample_world;
                  io_log := [];
                  unwritable := {[ "nodir/out.h" := FileNotFoundError ]} |} in
      ConfigFile_write 0 (settings w) (Some "nodir/out.h") w
      = (Raise FileNotFoundError,
         with_io (files w) [OpenWrite "nodir/out.h"] w)).
Proof.
  split.
  - pose proof (X13_write_replaces_content 0
                  {| filename := "config.h";
                     templates := [TStr "/* options */";
                                   TTuple "FOO" "" "#define FOO ";
                                   TTuple "BAZ" "" "#define BAZ "];
                     current_section := None;
                     inclusion_guard := None;
                     modified := false |}
                  (settings sample_world) (Some "out.h") sample_world) as H.
    destruct H as (w' & H1 & H2 & H3 & H4 & H5 & _).
    + vm_compute. reflexivity.
    + right. discriminate.
    + exists w'. repeat split; assumption.
  - intros w.
    apply (X13_write_replaces_content 0
             {| filename := "config.h";
                templates := [TStr "/* options */";
                              TTuple "FOO" "" "#define FOO ";
                              TTuple "BAZ" "" "#define BAZ "];
                current_section := None;
                inclusion_guard := None;
                modified := false |}
             (settings w) (Some "nodir/out.h") w).
    + vm_compute. reflexivity.
    + right. discriminate.
Defined.

(** X14: [Config.write()] on a table none of whose files is flagged does
    nothing at all: no file is opened and the world is as before. *)
Theorem X14_write_untouched_table (w : world) :
  (forall r, r ∈ configfiles w ->
     exists cf, heap w !! r = Some cf /\ modified cf = false) ->
  Config_write None w = (Ok tt, w).
Proof.
  intros Hall. unfold Config_write, bind at 1, gets.
  induction (configfiles w) as [|r rs IH]; [reflexivity|].
  simpl. unfold bind at 1. unfold bind at 1. unfold gets.
  destruct (Hall r) as (cf & Hcf & Hm); [left|].
  rewrite (write_unmodified r cf _ None w Hcf Hm) by now left.
  apply IH. intros r' Hr'. apply Hall. now right.
Qed.

Lemma X14_write_untouched_table_witness :
  Config_write None sample_world = (Ok tt, sample_world).
Proof.
  apply (X14_write_untouched_table sample_world).
  intros r Hr. apply list_elem_of_singleton in Hr as ->.
  eexists. split; [vm_compute; reflexivity|reflexivity].
Defined.

(** ** Rendered lines *)

Lemma rstrip_by_idempotent p s : rstrip_by p (rstrip_by p s) = rstrip_by p s.
Proof.
  induction s as [|c s IH]; [reflexivity|]. simpl.
  destruct (rstrip_by p s) as [|d r] eqn:E.
  - destruct (p c) eqn:Hc; [reflexivity|]. simpl. now rewrite Hc.
  - change (rstrip_by p (String c (String d r)) = String c (String d r)).
    simpl in IH |- *. destruct (rstrip_by p r) eqn:E2.
    + destruct (p d); [discriminate|]. now rewrite IH.
    + now rewrite IH.
Qed.

Lemma last_char_None s : last_char s = None -> s = "".
Proof.
  destruct s as [|a s]; [reflexivity|]. intros E. exfalso.
  revert a E. induction s as [|b s IH]; intros a E; [discriminate|].
  simpl in E. now apply (IH b).
Qed.

(** X15: [_format_template] raises only [IndexError], and exactly when the
    prefix is empty while the value is not; otherwise it returns a line
    that has no trailing whitespace. *)
Theorem X15_format_template_outcome (setting : Setting)
    (indent middle : string) :
  match ConfigFile__format_template setting indent middle with
  | Ok line =>
      rstrip line = line
      /\ ~ (middle = "" /\ default "" (value setting) <> "")
  | Raise e =>
      e = IndexError /\ middle = "" /\ default "" (value setting) <> ""
  end.
Proof.
  unfold ConfigFile__format_template.
  change (match value setting with Some v => v | None => "" end)
    with (default "" (value setting)).
  destruct (default "" (value setting)) as [|a val] eqn:Hv; simpl.
  - split; [apply rstrip_by_idempotent|]. intros [_ H]. now apply H.
  - destruct (last_char middle) as [c|] eqn:E.
    + assert (Hm : middle <> "") by (intros ->; discriminate).
      destruct (negb _); simpl;
        (split; [apply rstrip_by_idempotent|tauto]).
    + apply last_char_None in E. repeat split; auto; discriminate.
Qed.

(** ** The text behind the groups of a match *)

Lemma append_cons (a : ascii) (s t : string) :
  String a s ++ t = String a (s ++ t).
Proof. reflexivity. Qed.

Lemma ascii_eqb_eq (a b : ascii) : ascii_eqb a b = true -> a = b.
Proof.
  unfold ascii_eqb. intros H. apply Nat.eqb_eq in H.
  rewrite <- (ascii_nat_embedding a), <- (ascii_nat_embedding b).
  now rewrite H.
Qed.

Lemma strip_prefix_app t : forall s s',
  strip_prefix t s = Some s' -> s = t ++ s'.
Proof.
  induction t as [|a t IH]; intros s s' H; simpl in H.
  - now injection H as ->.
  - destruct s as [|b s]; [discriminate|].
    destruct (ascii_eqb a b) eqn:E; [|discriminate].
    apply ascii_eqb_eq in E as ->. rewrite append_cons.
    now rewrite (IH s s' H).
Qed.

Lemma star_matched {A} p s (k : string -> option A) x :
  star p s k = Some x ->
  exists pre s', s = pre ++ s' /\ all_chars p pre = true /\ k s' = Some x.
Proof.
  induction s as [|c s IH]; simpl.
  - intros H. exists "", "". auto.
  - destruct (p c) eqn:Hc; [|intros H; exists "", (String c s); auto].
    destruct (star p s k) eqn:E.
    + intros [= <-]. destruct (IH eq_refl) as (pre & s' & -> & Hp & Hk).
      exists (String c pre), s'. rewrite append_cons. simpl.
      now rewrite Hc, Hp.
    + intros H. exists "", (String c s). auto.
Qed.

Lemma length_append (s t : string) :
  String.length (s ++ t) = String.length s + String.length t.
Proof.
  induction s as [|a s IH]; [reflexivity|].
  rewrite append_cons. simpl. now rewrite IH.
Qed.

Lemma str_take_app (pre s : string) :
  str_take (String.length pre) (pre ++ s) = pre.
Proof.
  induction pre as [|a pre IH]; [now destruct s|].
  rewrite append_cons. simpl. now rewrite IH.
Qed.

Lemma consumed_app (pre s : string) : consumed (pre ++ s) s = pre.
Proof.
  unfold consumed. rewrite length_append.
  replace (String.length pre + String.length s - String.length s)
    with (String.length pre) by lia.
  apply str_take_app.
Qed.

(** A successful match consumed a text the pattern describes, and handed
    the rest of the subject to its continuation. *)
Lemma rmatch_matched r : forall s c k m,
  rmatch r s c k = Some m ->
  exists pre s' c',
    s = pre ++ s' /\ matched r pre c c' /\ k s' c' = Some m.
Proof.
  induction r as [t|p|p|p|r1 IH1|r1 IH1 r2 IH2|r1 IH1 r2 IH2|g r1 IH1];
    intros s c k m H; simpl in *.
  - destruct (strip_prefix t s) as [s'|] eqn:E; [|discriminate].
    apply strip_prefix_app in E. exists t, s', c. auto.
  - destruct s as [|a s]; [discriminate|].
    destruct (p a) eqn:E; [|discriminate].
    exists (String a ""), s, c. repeat split; eauto.
  - apply star_matched in H as (pre & s' & -> & Hp & H).
    exists pre, s', c. auto.
  - destruct s as [|a s]; [discriminate|].
    destruct (p a) eqn:E; [|discriminate].
    apply star_matched in H as (pre & s' & -> & Hp & H).
    exists (String a pre), s', c. rewrite append_cons.
    repeat split; [discriminate|simpl; now rewrite E, Hp|assumption].
  - destruct (rmatch r1 s c k) eqn:E.
    + injection H as ->.
      destruct (IH1 _ _ _ _ E) as (pre & s' & c' & Hs & Hm & Hk).
      exists pre, s', c'. auto.
    + exists "", s, c. auto.
  - destruct (IH1 _ _ _ _ H) as (p1 & s1 & c1 & Hs1 & Hm1 & H1).
    destruct (IH2 _ _ _ _ H1) as (p2 & s2 & c2 & Hs2 & Hm2 & H2).
    exists (p1 ++ p2), s2, c2. split; [now rewrite append_assoc, <- Hs2|].
    split; [exists p1, p2, c1; auto|assumption].
  - destruct (rmatch r1 s c k) eqn:E.
    + injection H as ->.
      destruct (IH1 _ _ _ _ E) as (pre & s' & c' & Hs & Hm & Hk).
      exists pre, s', c'. auto.
    + destruct (IH2 _ _ _ _ H) as (pre & s' & c' & Hs & Hm & Hk).
      exists pre, s', c'. auto.
  - destruct (IH1 _ _ _ _ H) as (pre & s' & c' & -> & Hm & Hk).
    rewrite consumed_app in Hk.
    exists pre, s', (<[g := pre]> c'). split; [reflexivity|].
    split; [exists c'; auto|assumption].
Qed.

Lemma rmatch_seq_matched r1 r2 s c k m :
  rmatch (Seq r1 r2) s c k = Some m ->
  exists p1 s1 c1,
    s = p1 ++ s1 /\ matched r1 p1 c c1 /\ rmatch r2 s1 c1 k = Some m.
Proof. intros H. simpl in H. now apply rmatch_matched in H. Qed.

Lemma all_chars_app p s t :
  all_chars p (s ++ t) = all_chars p s && all_chars p t.
Proof.
  induction s as [|a s IH]; [reflexivity|].
  rewrite append_cons. simpl. now rewrite IH, andb_assoc.
Qed.

Lemma skip_all p s : all_chars p s = true -> skip p s = "".
Proof.
  induction s as [|a s IH]; [reflexivity|]. simpl.
  intros [-> H]%andb_true_iff. auto.
Qed.

(** On a line without line feed, a match of the define pattern splits the
    whole line into its seven groups. *)
Lemma define_match_text line m :
  rmatch _define_line_regexp line ∅ (fun _ caps => Some caps) = Some m ->
  all_chars is_dot line = true ->
  exists indent co d n a sep v,
    m = <["value" := v]> (<["separator" := sep]> (<["arguments" := a]>
        (<["name" := n]> (<["define" := d]> (<["commented_out" := co]>
        (<["indentation" := indent]> ∅))))))
    /\ line = indent ++ co ++ d ++ n ++ a ++ sep ++ v
    /\ n <> "".
Proof.
  intros H Hdot. unfold _define_line_regexp, seq_of in H.
  apply rmatch_seq_matched in H as (p1 & s1 & c1 & E1 & M1 & H).
  apply rmatch_seq_matched in H as (p2 & s2 & c2 & E2 & M2 & H).
  apply rmatch_seq_matched in H as (p3 & s3 & c3 & E3 & M3 & H).
  apply rmatch_seq_matched in H as (p4 & s4 & c4 & E4 & M4 & H).
  apply rmatch_seq_matched in H as (p5 & s5 & c5 & E5 & M5 & H).
  apply rmatch_seq_matched in H as (p6 & s6 & c6 & E6 & M6 & H).
  simpl in H. rewrite star_total in H by eauto. injection H as <-.
  assert (Hs6 : all_chars is_dot s6 = true).
  { subst line s1 s2 s3 s4 s5. rewrite !all_chars_app in Hdot.
    repeat (apply andb_true_iff in Hdot as [_ Hdot]). exact Hdot. }
  rewrite (skip_all _ _ Hs6).
  replace (consumed s6 "") with s6
    by (pose proof (consumed_app s6 "") as Hc;
        now rewrite append_empty_r in Hc).
  simpl in M1, M2, M3, M4, M5, M6.
  destruct M1 as (? & [_ ->] & ->). destruct M2 as (c2' & M2 & ->).
  assert (c2' = <["indentation":=p1]> ∅) as ->.
  { destruct M2 as [(? & ? & ? & _ & [_ ->] & [_ ->])|[_ ->]]; reflexivity. }
  destruct M3 as (? & (? & ? & ? & _ & [_ ->] & (? & ? & ? & _ & [_ ->]
                  & (? & ? & ? & _ & [_ ->] & (_ & _ & ->)))) & ->).
  destruct M4 as (? & (Hn & _ & ->) & ->).
  destruct M5 as (c5' & M5 & ->).
  match type of M5 with
  | _ \/ (_ /\ c5' = ?X) => assert (c5' = X) as ->
  end.
  { destruct M5 as [(? & ? & ? & _ & [_ ->] & (? & ? & ? & _ & [_ ->]
                     & [_ ->]))|[_ ->]]; reflexivity. }
  destruct M6 as (? & [_ ->] & ->).
  exists p1, p2, p3, p4, p5, p6, s6. split; [reflexivity|].
  split; [now subst|exact Hn].
Qed.

(** A match of the line pattern that sets [define] is a match of the
    define pattern. *)
Lemma config_match_define line m :
  re_match _config_line_regexp line = Some m ->
  is_Some (m !! "define") ->
  rmatch _define_line_regexp line ∅ (fun _ caps => Some caps) = Some m.
Proof.
  intros H [d Hd]. unfold re_match, _config_line_regexp in H.
  change (match rmatch _define_line_regexp line ∅ (fun _ caps => Some caps) with
          | Some x => Some x
          | None => rmatch (Alt _ifndef_line_regexp _section_line_regexp)
                      line ∅ (fun _ caps => Some caps)
          end = Some m) in H.
  destruct (rmatch _define_line_regexp line ∅ _) as [x|]; [assumption|].
  exfalso. apply rmatch_caps in H as (s' & c' & Hc & [= <-]).
  simpl in Hc.
  repeat match goal with
         | H : exists _, _ |- _ => destruct H
         | H : _ /\ _ |- _ => destruct H
         | H : _ \/ _ |- _ => destruct H
         end; subst; simplify_map_eq.
Qed.

Lemma rstrip_app_rstrip p a b :
  rstrip_by p (a ++ rstrip_by p b) = rstrip_by p (a ++ b).
Proof.
  induction a as [|c a IH]; [apply rstrip_by_idempotent|].
  rewrite !append_cons. simpl. now rewrite IH.
Qed.

(** X16: what is written back for a define line that has not been edited.
    When [_parse_line] yields a tuple for a line, the appended template
    names the yielded symbol, with a non-empty name and prefix, and the
    tuple carries the section current at that point. If moreover the line
    is active and either has no value or has a space or a tab just before
    its value, then rendering the template with a setting made of the
    yielded tuple gives back the line itself, without its line terminator
    and trailing whitespace. *)
Theorem X16_active_define_line_round_trip (line0 : string)
    (self self' : ConfigFile) (act : bool) (n v : string)
    (sec : option string) (r : ref) :
  all_chars is_dot (rstrip_crlf line0) = true ->
  ConfigFile__parse_line line0 self = (Ok (Some (act, n, v, sec)), self') ->
  exists indent middle,
    templates self' = (templates self ++ [TTuple n indent middle])%list
    /\ sec = current_section self
    /\ n <> "" /\ middle <> ""
    /\ (act = true ->
        v = "" \/ (exists c, last_char middle = Some c
                             /\ char_in c (String "009" " ") = true) ->
        ConfigFile__format_template (Setting_init r act n (Some v) sec)
          indent middle
        = Ok (rstrip (rstrip_crlf line0))).
Proof.
  intros Hdot Hp. unfold ConfigFile__parse_line in Hp.
  set (line := rstrip_crlf line0) in *.
  destruct (re_match _config_line_regexp line) as [m|] eqn:Hm; [|discriminate].
  destruct (opt_truthy (m !! "section")); [discriminate|].
  destruct (opt_truthy (m !! "inclusion_guard") && _); [discriminate|].
  destruct (bool_decide _ && bool_decide _); [discriminate|].
  destruct (str_add_r _ _) as [middle|e] eqn:Hmid; [|discriminate].
  destruct (m !! "define") as [d|] eqn:Hd; [|discriminate].
  assert (Hdef : is_Some (m !! "define")) by eauto.
  pose proof (define_match_text line m (config_match_define _ _ Hm Hdef) Hdot)
    as (indent & co & d' & n' & a & sep & v' & -> & Hline & Hn).
  simplify_map_eq.
  exists indent, (((d ++ n) ++ a) ++ sep).
  split; [reflexivity|]. split; [reflexivity|]. split; [assumption|].
  split.
  { intros E. destruct d; [|discriminate]. destruct n; [|discriminate].
    now apply Hn. }
  intros Hact Hsep. destruct co; [|discriminate]. clear Hact.
  assert (Hl : rstrip_crlf line0 = indent ++ (((d ++ n) ++ a) ++ sep) ++ v).
  { rewrite Hline. change ("" ++ ?x) with x. now rewrite !append_assoc. }
  unfold ConfigFile__format_template. simpl. rewrite Hl.
  destruct (str_truthy v) eqn:Hv.
  - destruct Hsep as [->|(c & Hc & Hb)]; [discriminate|].
    rewrite Hc. simpl in Hb |- *. now rewrite Hb.
  - destruct v; [|discriminate]. rewrite !append_empty_r.
    unfold rstrip. f_equal. apply rstrip_app_rstrip.
Qed.

Lemma X16_active_define_line_round_trip_witness :
  ConfigFile__format_template
    (Setting_init 0 true "BAZ" (Some "a + b  ") None)
    "  " "#  define BAZ(a, b)   "
  = Ok "  #  define BAZ(a, b)   a + b".
Proof.
  destruct (X16_active_define_line_round_trip
              ("  #  define BAZ(a, b)   a + b  " ++ LF) (fresh_file "c.h" false)
              (append_template (TTuple "BAZ" "  " "#  define BAZ(a, b)   ")
                 (fresh_file "c.h" false))
              true "BAZ" "a + b  " None 0)
    as (indent & middle & Ht & _ & _ & _ & H).
  - vm_compute. reflexivity.
  - vm_compute. reflexivity.
  - apply app_inv_head in Ht. injection Ht as <- <-.
    rewrite H; [vm_compute; reflexivity|reflexivity|].
    right. exists " "%char. split; vm_compute; reflexivity.
Defined.

(** * The command-line tool *)

(** A write changes files and the trace only. *)
Lemma for_each_table_same {A} (l : list A) (body : A -> M unit) :
  (forall x w, settings (body x w).2 = settings w
               /\ heap (body x w).2 = heap w
               /\ configfiles (body x w).2 = configfiles w) ->
  forall w, settings (for_each l body w).2 = settings w
            /\ heap (for_each l body w).2 = heap w
            /\ configfiles (for_each l body w).2 = configfiles w.
Proof.
  intros Hb. induction l as [|x l IH]; intros w; [auto|].
  simpl. unfold bind. destruct (Hb x w) as (H1 & H2 & H3).
  destruct (body x w) as [[[]|e] w1]; simpl in *; [|auto].
  destruct (IH w1) as (H4 & H5 & H6). repeat split; congruence.
Qed.

Lemma write_to_stream_table_same cf st out w :
  settings (ConfigFile_write_to_stream cf st out w).2 = settings w
  /\ heap (ConfigFile_write_to_stream cf st out w).2 = heap w
  /\ configfiles (ConfigFile_write_to_stream cf st out w).2 = configfiles w.
Proof.
  unfold ConfigFile_write_to_stream. apply for_each_table_same.
  intros tpl u. unfold bind, lift.
  destruct (template_line st tpl); simpl; auto.
Qed.

Lemma file_write_unfold r st fname w :
  ConfigFile_write r st fname w =
  match heap w !! r with
  | None => (Raise ReferenceError, w)
  | Some cf =>
      let target := match fname with None => filename cf | Some f => f end in
      if negb (modified cf) && String.eqb target (filename cf) then (Ok tt, w)
      else
        match unwritable w !! target with
        | Some e =>
            (Raise e, with_io (files w) (io_log w ++ [OpenWrite target]) w)
        | None =>
            ConfigFile_write_to_stream cf st target
              (with_io (<[target := ""]> (files w))
                       (io_log w ++ [OpenWrite target]) w)
        end
  end.
Proof.
  unfold ConfigFile_write, bind, deref.
  destruct (heap w !! r) as [cf|]; [|reflexivity].
  cbv zeta. destruct (negb (modified cf) && _); [reflexivity|].
  unfold open_write. destruct (unwritable w !! _); reflexivity.
Qed.

Lemma file_write_table_same r st fname w :
  settings (ConfigFile_write r st fname w).2 = settings w
  /\ heap (ConfigFile_write r st fname w).2 = heap w
  /\ configfiles (ConfigFile_write r st fname w).2 = configfiles w.
Proof.
  rewrite file_write_unfold.
  destruct (heap w !! r) as [cf|]; [|auto]. cbv zeta.
  destruct (negb (modified cf) && _); [auto|].
  destruct (unwritable w !! _); [auto|].
  match goal with
  | |- context [ConfigFile_write_to_stream cf st ?t ?u] =>
      destruct (write_to_stream_table_same cf st t u) as (H1 & H2 & H3)
  end.
  rewrite H1, H2, H3. auto.
Qed.

(** Writing a table none of whose files is flagged. *)
Lemma write_unflagged_table (w : world) :
  (forall r, r ∈ configfiles w ->
     exists cf, heap w !! r = Some cf /\ modified cf = false) ->
  Config_write None w = (Ok tt, w).
Proof.
  intros Hall. unfold Config_write, bind at 1, gets.
  induction (configfiles w) as [|r rs IH]; [reflexivity|].
  simpl. unfold bind at 1. unfold bind at 1. unfold gets.
  destruct (Hall r) as (cf & Hcf & Hm); [left|].
  rewrite (write_unmodified r cf _ None w Hcf Hm) by now left.
  apply IH. intros r' Hr'. apply Hall. now right.
Qed.

Lemma write_table_same fname w :
  settings (Config_write fname w).2 = settings w
  /\ heap (Config_write fname w).2 = heap w
  /\ configfiles (Config_write fname w).2 = configfiles w.
Proof.
  unfold Config_write, bind at 1, gets.
  apply for_each_table_same. intros r u. unfold bind, gets.
  apply file_write_table_same.
Qed.

(** X17: the [get] command. It exits with status 0 exactly when the symbol
    is active, prints the value followed by a line feed when the symbol is
    active with a non-empty value and nothing otherwise, and leaves the
    world as it is: it returns before the table is written, whatever
    [--write] says and whatever files are flagged. *)
Theorem X17_main_get (re_search : string -> string -> bool)
    (re_valid : string -> bool)
    (symbol : string) (force : bool) (target : option string) (w : world) :
  ConfigTool_main re_search re_valid (mkArgs (Cmd_get symbol) force target) w
  = (Ok (if Config_contains symbol w then 0 else 1,
         match settings w !! symbol with
         | Some s =>
             if active s && opt_truthy (value s)
             then [Stdout (default "" (value s) ++ LF)] else []
         | None => []
         end),
     w).
Proof.
  unfold ConfigTool_main. simpl. unfold bind, gets, ret.
  unfold Config_contains, Config_getitem, settings_getitem.
  destruct (settings w !! symbol) as [s|] eqn:E; simpl;
    repeat (rewrite E; simpl); [|reflexivity].
  destruct (active s) eqn:Ha; simpl; repeat (rewrite E; simpl);
    rewrite Ha; [|reflexivity].
  destruct (opt_truthy (value s)); reflexivity.
Qed.

(** X18: the [set] command without [--force] on a symbol that has no
    [#define], in a table with a first file: it exits with status 1, names
    the symbol and the path of the first file on the error stream, and
    changes nothing; the table is not written. *)
Theorem X18_main_set_refused (re_search : string -> string -> bool)
    (re_valid : string -> bool)
    (symbol val : string) (target : option string) (w : world)
    (r0 : ref) (rest : list ref) (cf0 : ConfigFile) :
  settings w !! symbol = None ->
  configfiles w = r0 :: rest ->
  heap w !! r0 = Some cf0 ->
  ConfigTool_main re_search re_valid (mkArgs (Cmd_set symbol val) false target) w
  = (Ok (1, [Stderr ("A #define for the symbol " ++ symbol
                     ++ " was not found in " ++ filename cf0 ++ LF)]),
     w).
Proof.
  intros Hs Hc Hh. unfold ConfigTool_main. simpl. unfold bind at 1, gets.
  rewrite (is_Some_false _ Hs). simpl.
  unfold Config_filename, bind.
  rewrite (get_configfile_unknown _ _ _ _ Hs Hc).
  unfold deref. rewrite Hh. reflexivity.
Qed.

Lemma X18_main_set_refused_witness :
  ConfigTool_main (fun _ _ => false) (fun _ => true)
    (mkArgs (Cmd_set "NOPE" "1") false None) sample_world
  = (Ok (1, [Stderr ("A #define for the symbol " ++ "NOPE"
                     ++ " was not found in " ++ "config.h" ++ LF)]),
     sample_world).
Proof.
  apply (X18_main_set_refused (fun _ _ => false) (fun _ => true) "NOPE" "1" None sample_world
           0 [] {| filename := "config.h";
                   templates := [TStr "/* options */";
                                 TTuple "FOO" "" "#define FOO ";
                                 TTuple "BAZ" "" "#define BAZ "];
                   current_section := None;
                   inclusion_guard := None;
                   modified := false |}).
  - vm_compute. reflexivity.
  - reflexivity.
  - vm_compute. reflexivity.
Defined.

(** X19: the [set] command on a symbol that has a [#define]. Whatever the
    outcome of the write that follows, the symbol ends up active with
    exactly the given [VALUE], which is the empty string when [VALUE] was
    omitted on the command line, and every other setting is as before. *)
Theorem X19_main_set_known (re_search : string -> string -> bool)
    (re_valid : string -> bool)
    (symbol val : string) (force : bool) (target : option string)
    (s : Setting) (w : world) :
  settings w !! symbol = Some s ->
  let w' := (ConfigTool_main re_search re_valid
               (mkArgs (Cmd_set symbol val) force target) w).2 in
  settings w' !! symbol = Some (set_active true (set_value (Some val) s))
  /\ Config_contains symbol w' = true
  /\ Config_getitem symbol w' = Ok (Some val)
  /\ (forall other, other <> symbol ->
        settings w' !! other = settings w !! other).
Proof.
  intros Hs w'.
  assert (Hset : settings w'
                 = alter (set_active true) symbol
                     (alter (set_value (Some val)) symbol (settings w))).
  { unfold w', ConfigTool_main. simpl. unfold bind at 1, gets.
    rewrite (is_Some_true _ _ Hs), andb_false_r.
    unfold bind at 1. rewrite (set_known _ _ _ _ Hs).
    set (w1 := with_settings _ _).
    unfold bind.
    destruct (write_table_same target w1) as (H1 & _ & _).
    destruct (Config_write target w1) as [[[]|e] w2]; simpl in *;
      rewrite H1; unfold w1; reflexivity. }
  assert (Hl : settings w' !! symbol
               = Some (set_active true (set_value (Some val) s)))
    by now rewrite Hset, !lookup_alter_eq, Hs.
  split; [exact Hl|].
  split; [unfold Config_contains; now rewrite Hl|].
  split; [apply (getitem_known _ _ _ Hl)|].
  intros other Hne. now rewrite Hset, !lookup_alter_ne.
Qed.

Lemma X19_main_set_known_witness :
  let w' := (ConfigTool_main (fun _ _ => false) (fun _ => true)
               (mkArgs (Cmd_set "BAZ" "") false None) sample_world).2 in
  settings w' !! "BAZ"
  = Some (set_active true
            (set_value (Some "") (Setting_init 0 false "BAZ" (Some "7") None)))
  /\ Config_contains "BAZ" w' = true
  /\ Config_getitem "BAZ" w' = Ok (Some "")
  /\ (forall other, other <> "BAZ" ->
        settings w' !! other = settings sample_world !! other).
Proof.
  apply (X19_main_set_known (fun _ _ => false) (fun _ => true) "BAZ" "" false None
           (Setting_init 0 false "BAZ" (Some "7") None) sample_world).
  vm_compute. reflexivity.
Defined.

(** X20: commands that have nothing to do touch no file. On a table none
    of whose files is flagged, and without [--write], [unset] of a symbol
    that has no [#define], [set-all] without pattern and [unset-all]
    without pattern exit with status 0, print nothing and leave the world
    as it was. *)
Theorem X20_main_idle_commands (re_search : string -> string -> bool)
    (re_valid : string -> bool)
    (cmd : command) (force : bool) (w : world) :
  (forall r, r ∈ configfiles w ->
     exists cf, heap w !! r = Some cf /\ modified cf = false) ->
  (exists symbol, cmd = Cmd_unset symbol /\ settings w !! symbol = None)
  \/ cmd = Cmd_set_all [] \/ cmd = Cmd_unset_all [] ->
  ConfigTool_main re_search re_valid (mkArgs cmd force None) w = (Ok (0, []), w).
Proof.
  intros Hall Hcmd.
  pose proof (write_unflagged_table w Hall) as Hw.
  destruct Hcmd as [(symbol & -> & Hs)|[->| ->]];
    unfold ConfigTool_main; simpl; unfold bind at 1.
  - rewrite (unset_unknown _ _ Hs). unfold bind. now rewrite Hw.
  - simpl. unfold ret at 1. unfold bind. now rewrite Hw.
  - simpl. unfold ret at 1. unfold bind. now rewrite Hw.
Qed.

Lemma X20_main_idle_commands_witness :
  ConfigTool_main (fun _ _ => true) (fun _ => true) (mkArgs (Cmd_unset_all []) true None)
    sample_world
  = (Ok (0, []), sample_world).
Proof.
  apply (X20_main_idle_commands (fun _ _ => true) (fun _ => true) (Cmd_unset_all []) true
           sample_world).
  - intros r Hr. apply list_elem_of_singleton in Hr as ->.
    eexists. split; [vm_compute; reflexivity|reflexivity].
  - right. now right.
Defined.

(** * Lists of names and the first-file policy *)

(** X21: [all] and [any] after a mutation. Once [unset(name)] has been
    called, [all] fails on every list of names that mentions the name; once
    [set(name, value)] has returned normally, [any] succeeds on every such
    list. With no name at all, [all()] is true and [any()] is false. *)
Theorem X21_all_any_after_mutation (nm v : string) (names : list string)
    (w : world) :
  nm ∈ names ->
  Config_all names (Config_unset nm w).2 = false
  /\ (forall w', Config_set nm (Some v) w = (Ok tt, w') ->
        Config_any names w' = true)
  /\ Config_all [] w = true /\ Config_any [] w = false.
Proof.
  intros Hin. split; [|split; [|split; reflexivity]].
  - apply not_true_is_false. intros Hall.
    unfold Config_all in Hall. rewrite forallb_forall in Hall.
    specialize (Hall nm (proj1 (list_elem_of_In _ _) Hin)).
    destruct (settings w !! nm) as [s|] eqn:Hs.
    + rewrite (unset_known _ _ _ Hs) in Hall.
      unfold Config_contains in Hall.
      destruct (active s); simpl in Hall;
        rewrite lookup_alter_eq, Hs in Hall; discriminate.
    + rewrite (unset_unknown _ _ Hs) in Hall.
      unfold Config_contains in Hall. simpl in Hall.
      rewrite Hs in Hall. discriminate.
  - intros w' Hset. unfold Config_any. apply existsb_exists.
    exists nm. split; [now apply list_elem_of_In|].
    destruct (settings w !! nm) as [s|] eqn:Hs.
    + rewrite (set_known _ _ _ _ Hs) in Hset. injection Hset as <-.
      unfold Config_contains.
      destruct (py_ne _ _ || negb (active s)); simpl;
        now rewrite !lookup_alter_eq, Hs.
    + destruct (configfiles w) as [|r0 rest] eqn:Hc.
      * rewrite (set_unknown_no_file _ _ _ Hs Hc) in Hset. discriminate.
      * rewrite (set_unknown _ _ _ _ _ Hs Hc) in Hset. injection Hset as <-.
        unfold Config_contains. simpl. now rewrite lookup_insert_eq.
Qed.

Lemma X21_all_any_after_mutation_witness :
  Config_all ["FOO"; "BAZ"] (Config_unset "FOO" sample_world).2 = false
  /\ (forall w', Config_set "FOO" (Some "2") sample_world = (Ok tt, w') ->
        Config_any ["FOO"; "BAZ"] w' = true)
  /\ Config_all [] sample_world = true /\ Config_any [] sample_world = false.
Proof.
  apply (X21_all_any_after_mutation "FOO" "2" ["FOO"; "BAZ"] sample_world).
  left.
Defined.

(** X22: the first-file policy. For an omitted, empty or unknown name,
    [filename] returns the path of the first file of the table and changes
    nothing; in a table without files it raises [IndexError], and so does
    [set] on an unknown name, which then creates nothing. *)
Theorem X22_first_file_policy (nm : option string) (w : world) :
  nm = None \/ nm = Some ""
  \/ (exists n, nm = Some n /\ settings w !! n = None) ->
  match configfiles w with
  | [] =>
      Config_filename nm w = (Raise IndexError, w)
      /\ (forall n v, settings w !! n = None ->
            Config_set n v w = (Raise IndexError, w))
  | r0 :: _ =>
      forall cf0, heap w !! r0 = Some cf0 ->
        Config_filename nm w = (Ok (filename cf0), w)
  end.
Proof.
  intros Hnm.
  assert (Hget : Config__get_configfile nm w
                 = match configfiles w with
                   | r :: _ => (Ok r, w)
                   | [] => (Raise IndexError, w)
                   end).
  { unfold Config__get_configfile.
    destruct Hnm as [->|[->|(n & -> & Hs)]]; [reflexivity|reflexivity|].
    now rewrite (is_Some_false _ Hs), andb_false_r. }
  unfold Config_filename, bind. rewrite Hget.
  destruct (configfiles w) as [|r0 rest] eqn:Hc.
  - split; [reflexivity|]. intros n v Hs.
    now apply set_unknown_no_file.
  - intros cf0 Hcf. unfold deref. now rewrite Hcf.
Qed.

Lemma X22_first_file_policy_witness :
  Config_filename (Some "") sample_world = (Ok "config.h", sample_world).
Proof.
  apply (X22_first_file_policy (Some "") sample_world
           (or_intror (or_introl eq_refl))
           {| filename := "config.h";
              templates := [TStr "/* options */";
                            TTuple "FOO" "" "#define FOO ";
                            TTuple "BAZ" "" "#define BAZ "];
              current_section := None;
              inclusion_guard := None;
              modified := false |}).
  vm_compute. reflexivity.
Defined.

(** * One target for several files *)





